(** * Text -> Speech -> Voiceover video: a model of [ai.py]

    The program is a Streamlit form that sends narration text to a neural
    text-to-speech service and lays the resulting audio over a video, an
    image or a generated black frame.

    The development follows the source file top to bottom:
    - [Py]       the few Python built-ins the program relies on (truthiness,
                 [str.strip], [str(int)], [pathlib] joins and suffixes);
    - [Media]    the data handled by the media library: files on disk, clips
                 and the quantities the library derives from a clip;
    - [Runtime]  the world the program runs in (file system, speech service,
                 encoder, temporary names, trace of external calls) and the
                 state-and-exception monad in which the functions are written;
    - [App]      [_synthesize], [synthesize_tts],
                 [create_video_with_voiceover] and the button handler;
    - [Trace], [Spec], [Runs], [Samples]  what the theorems are stated
                 with: readings of the trace, the specification's wording,
                 the shape of the composer's runs, and sample worlds;
    - the theorems.

    Python [float] durations are modelled by exact rationals ([Q]): every
    finite float is a rational, comparison of floats is exact, and [//] on
    floats gives the floor of the exact quotient as long as that integer is
    below 2^53, far above any number of loops of a clip.  Rounding in sums
    of durations is not modelled, and results that involve arithmetic on
    durations are stated up to [==]. *)

From Stdlib Require Import ZArith QArith Qround Lqa String Ascii DecimalString DecimalZ.
From stdpp Require Import gmap strings list.

Local Open Scope Z_scope.
Set Warnings "-register-all".

(* ===================================================================== *)
(** * Python built-ins *)
(* ===================================================================== *)

Module Py.

(** A Python [str] is a sequence of Unicode code points. *)
Definition str := list N.

(** An ASCII literal of the source, as code points. *)
Definition lit (s : string) : str := map N_of_ascii (list_ascii_of_string s).

(** The double-quote character, which the SSML template uses around
    attribute values. *)
Definition dq : str := [34%N].

(** Truthiness of a [str]: the empty string is false. *)
Definition truthy_str (s : str) : bool :=
  match s with
  | [] => false
  | _ :: _ => true
  end.

(** Truthiness of an [Optional[str]]: [None] and [""] are false. *)
Definition truthy (o : option str) : bool :=
  match o with
  | None => false
  | Some s => truthy_str s
  end.

(** Truthiness of an [int]. *)
Definition truthy_int (z : Z) : bool := negb (z =? 0).

(** [str(z)] for an [int], as used by [f"{z}%"]. *)
Definition str_of_int (z : Z) : str := lit (NilZero.string_of_int (Z.to_int z)).

(** [str.isspace] for one code point: the characters CPython strips by
    default (bidirectional class WS, B or S, or category Zs). *)
Definition isspace (c : N) : bool :=
  ((9 <=? c) && (c <=? 13) || (28 <=? c) && (c <=? 32)
   || (c =? 133) || (c =? 160) || (c =? 5760)
   || (8192 <=? c) && (c <=? 8202)
   || (c =? 8232) || (c =? 8233) || (c =? 8239) || (c =? 8287)
   || (c =? 12288))%N.

Fixpoint lstrip (s : str) : str :=
  match s with
  | [] => []
  | c :: s' => if isspace c then lstrip s' else s
  end.

Definition rstrip (s : str) : str := rev (lstrip (rev s)).

(** [s.strip()] *)
Definition strip (s : str) : str := rstrip (lstrip s).

(** [s.lower()], restricted to what the program compares it with: the
    ASCII letters are folded; no other code point lower-cases to one of
    the characters of [".mp4"], [".mov"] or [".webm"]. *)
Definition lower_char (c : N) : N :=
  if ((65 <=? c) && (c <=? 90))%N then (c + 32)%N else c.

Definition lower (s : str) : str := map lower_char s.

Definition slash : N := 47%N.
Definition dot : N := 46%N.

(** [Path(dir) / name]: an absolute right operand replaces the left one. *)
Definition path_join (dir name : str) : str :=
  match name with
  | c :: _ => if (c =? slash)%N then name else dir ++ [slash] ++ name
  | [] => dir
  end.

(** The final component of a path. *)
Fixpoint basename_aux (acc s : str) : str :=
  match s with
  | [] => acc
  | c :: s' => if (c =? slash)%N then basename_aux [] s' else basename_aux (acc ++ [c]) s'
  end.

Definition basename (p : str) : str := basename_aux [] p.

(** [name.rfind(".")]: the position of the last dot, if any. *)
Fixpoint rfind_dot (i : nat) (s : str) : option nat :=
  match s with
  | [] => None
  | c :: s' =>
      match rfind_dot (S i) s' with
      | Some j => Some j
      | None => if (c =? dot)%N then Some i else None
      end
  end.

(** [Path(p).suffix]: the last dot of the final component and what
    follows it, unless that dot is the first or the last character. *)
Definition suffix (p : str) : str :=
  let name := basename p in
  match rfind_dot 0 name with
  | Some i => if ((0 <? i)%nat && (i <? length name - 1)%nat)%bool then drop i name else []
  | None => []
  end.

Definition str_eqb (a b : str) : bool := bool_decide (a = b).

(** [x in xs] for a list of strings. *)
Definition str_in (x : str) (xs : list str) : bool := existsb (str_eqb x) xs.

End Py.

Import Py.

(* ===================================================================== *)
(** * Media: files and clips *)
(* ===================================================================== *)

(** The media library is a dependency of the program, not part of it.
    Its clips are modelled by the way they were built, together with the
    attributes the library derives from that: duration, size, frame rate,
    audio and the picture shown at each instant.  Reading a file succeeds
    when the file holds data of the expected kind. *)

Module Media.

Definition rgb : Type := Z * Z * Z.

(** Pixel data of a still image: one colour everywhere
    (what [Image.new(mode, size, color)] makes) or decoded rows. *)
Inductive Pixels :=
| Solid (color : rgb)
| Raster (rows : list (list rgb)).

Record Image := {
  im_mode : str;
  im_size : Z * Z;          (* (width, height) *)
  im_pixels : Pixels
}.

(** What the media library reads from a video file. *)
Record VideoInfo := {
  v_duration : Q;           (* seconds *)
  v_size : Z * Z;           (* (width, height) *)
  v_fps : Q;
  v_audio : option Q        (* duration of the audio track, if any *)
}.

(** A file, seen through the decoders that open it. *)
Inductive FileContent :=
| AudioData (duration : Q)
| VideoData (info : VideoInfo)
| ImageData (img : Image)
| Garbage.                  (* anything the decoders reject *)

(** An open [AudioFileClip]. *)
Record AudioClip := {
  a_path : str;
  a_duration : Q
}.

(** A video clip is either backed by a file or derived from other clips
    by one of the library's operations.  The program only uses [resize]
    with a [height] argument. *)
Inductive Clip :=
| VideoFile (path : str) (info : VideoInfo)
| ImageFile (path : str) (img : Image)
| Concatenated (clips : list Clip)
| Subclip (c : Clip) (t_start t_end : Q)
| WithDuration (c : Clip) (d : Q)
| Resized (c : Clip) (height : Z)
| WithAudio (c : Clip) (a : AudioClip).

(** [clip.subclip(t_start, t_end)] *)
Definition subclip (c : Clip) (t_start t_end : Q) : Clip := Subclip c t_start t_end.
(** [clip.set_duration(d)] *)
Definition set_duration (c : Clip) (d : Q) : Clip := WithDuration c d.
(** [clip.set_audio(a)] *)
Definition set_audio (c : Clip) (a : AudioClip) : Clip := WithAudio c a.

Definition sum_durations (ds : list (option Q)) : option Q :=
  foldr (fun d acc =>
           match d, acc with
           | Some x, Some y => Some (x + y)%Q
           | _, _ => None
           end) (Some 0%Q) ds.

(** [clip.duration]; an image clip has none until [set_duration]. *)
Fixpoint clip_duration (c : Clip) : option Q :=
  match c with
  | VideoFile _ info => Some (v_duration info)
  | ImageFile _ _ => None
  | Concatenated clips => sum_durations (map clip_duration clips)
  | Subclip _ t_start t_end => Some (t_end - t_start)%Q
  | WithDuration _ d => Some d
  | Resized c' _ => clip_duration c'
  | WithAudio c' _ => clip_duration c'
  end.

(** [clip.size] as (width, height).  Resizing to a height keeps the
    aspect ratio: the new width is [w * height / h], truncated to an
    integer by the resizer. *)
Fixpoint clip_size (c : Clip) : Z * Z :=
  match c with
  | VideoFile _ info => v_size info
  | ImageFile _ img => im_size img
  | Concatenated clips =>
      match clips with
      | [] => (0, 0)
      | c0 :: _ => clip_size c0
      end
  | Subclip c' _ _ => clip_size c'
  | WithDuration c' _ => clip_size c'
  | Resized c' height =>
      let '(w, h) := clip_size c' in (w * height / h, height)
  | WithAudio c' _ => clip_size c'
  end.

Definition Qmax_opt (a b : option Q) : option Q :=
  match a, b with
  | Some x, Some y => Some (if Qlt_le_dec x y then y else x)
  | Some x, None => Some x
  | None, b => b
  end.

(** [clip.fps]: a file-backed video has its native rate, a concatenation
    the largest rate of its parts, an image clip none. *)
Fixpoint clip_fps (c : Clip) : option Q :=
  match c with
  | VideoFile _ info => Some (v_fps info)
  | ImageFile _ _ => None
  | Concatenated clips => foldr Qmax_opt None (map clip_fps clips)
  | Subclip c' _ _ => clip_fps c'
  | WithDuration c' _ => clip_fps c'
  | Resized c' _ => clip_fps c'
  | WithAudio c' _ => clip_fps c'
  end.

(** [clip.audio] *)
Fixpoint clip_audio (c : Clip) : option AudioClip :=
  match c with
  | VideoFile path info =>
      option_map (fun d => {| a_path := path; a_duration := d |}) (v_audio info)
  | ImageFile _ _ => None
  | Concatenated _ => None
  | Subclip c' _ _ => clip_audio c'
  | WithDuration c' _ => clip_audio c'
  | Resized c' _ => clip_audio c'
  | WithAudio _ a => Some a
  end.

(** Where the picture shown at a given instant comes from. *)
Inductive Frame :=
| VideoFrame (path : str) (t : Q)     (* the source video at its time [t] *)
| StillFrame (path : str).            (* the still image *)

(** [clip.get_frame(t)].  A concatenation plays its parts one after the
    other; a subclip shifts time by its start. *)
Fixpoint get_frame (c : Clip) (t : Q) : option Frame :=
  match c with
  | VideoFile path _ => Some (VideoFrame path t)
  | ImageFile path _ => Some (StillFrame path)
  | Concatenated clips =>
      (fix play (l : list Clip) (t : Q) : option Frame :=
         match l with
         | [] => None
         | c0 :: l' =>
             match clip_duration c0 with
             | Some d0 => if Qlt_le_dec t d0 then get_frame c0 t else play l' (t - d0)%Q
             | None => None
             end
         end) clips t
  | Subclip c' t_start _ => get_frame c' (t + t_start)%Q
  | WithDuration c' _ => get_frame c' t
  | Resized c' _ => get_frame c' t
  | WithAudio c' _ => get_frame c' t
  end.

(** The file handles a clip was built from. *)
Inductive Handle :=
| AudioHandle (path : str)
| VideoHandle (path : str)
| ImageHandle (path : str).

Fixpoint clip_handles (c : Clip) : list Handle :=
  match c with
  | VideoFile path _ => [VideoHandle path]
  | ImageFile path _ => [ImageHandle path]
  | Concatenated clips => concat (map clip_handles clips)
  | Subclip c' _ _ => clip_handles c'
  | WithDuration c' _ => clip_handles c'
  | Resized c' _ => clip_handles c'
  | WithAudio c' a => clip_handles c' ++ [AudioHandle (a_path a)]
  end.

End Media.

Import Media.

(* ===================================================================== *)
(** * The world and the monad of the program *)
(* ===================================================================== *)

Module Runtime.

(** The request handed to the speech service:
    [edge_tts.Communicate(text, voice=voice)]. *)
Record Communicate := {
  c_text : str;
  c_voice : str
}.

(** The arguments of one [write_videofile] call. *)
Record EncodeJob := {
  job_clip : Clip;
  job_out : str;
  job_fps : option Q;
  job_codec : str;
  job_audio_codec : str
}.

(** What the program does to the outside, in order. *)
Inductive Event :=
| Synthesize (req : Communicate) (outfile : str)   (* request sent to the speech service *)
| Open (h : Handle)                                (* a media file was opened *)
| Write (job : EncodeJob)                          (* a clip was handed to the encoder *)
| CloseClip (c : Clip)                             (* [c.close()] on a video or image clip *)
| CloseAudio (a : AudioClip)                       (* [a.close()] on an audio clip *)
| St_error (msg : str)
| St_success (msg : str)
| St_video (path : str)
| St_download_button (label path file_name mime : str).

Record World := {
  files : gmap str FileContent;            (* the file system *)
  speech_service : Communicate -> option Q;  (* duration of the audio returned, or failure *)
  encoder : EncodeJob -> bool;             (* does the encoder complete this job? *)
  tmp_names : nat -> str;                  (* names handed out by [tempfile] *)
  tmp_next : nat;
  log : list Event
}.

Definition set_files (f : gmap str FileContent) (w : World) : World :=
  {| files := f; speech_service := speech_service w; encoder := encoder w;
     tmp_names := tmp_names w; tmp_next := tmp_next w; log := log w |}.

Definition write_file (path : str) (c : FileContent) (w : World) : World :=
  set_files (<[path := c]> (files w)) w.

Definition log_event (e : Event) (w : World) : World :=
  {| files := files w; speech_service := speech_service w; encoder := encoder w;
     tmp_names := tmp_names w; tmp_next := tmp_next w; log := log w ++ [e] |}.

Definition bump_tmp (w : World) : World :=
  {| files := files w; speech_service := speech_service w; encoder := encoder w;
     tmp_names := tmp_names w; tmp_next := S (tmp_next w); log := log w |}.

Inductive Exn :=
| IOError (path : str)        (* a file could not be opened or decoded *)
| ZeroDivisionError
| TypeError
| ValueError
| AttributeError
| SynthesisError              (* the speech service failed *)
| EncoderError.               (* the encoder failed *)

Inductive Outcome (A : Type) :=
| Returned (a : A)
| Raised (e : Exn).
Arguments Returned {A} a.
Arguments Raised {A} e.

(** A computation changes the world and either returns or raises; the
    world reached when it raises is kept. *)
Definition M (A : Type) : Type := World -> World * Outcome A.

#[export] Instance M_ret : MRet M := fun A a w => (w, Returned a).

#[export] Instance M_bind : MBind M := fun A B f m w =>
  match m w with
  | (w', Returned a) => f a w'
  | (w', Raised e) => (w', Raised e)
  end.

Definition raise {A : Type} (e : Exn) : M A := fun w => (w, Raised e).

Definition emit (e : Event) : M unit := fun w => (log_event e w, Returned tt).

Definition is_raised {A : Type} (r : World * Outcome A) : Prop :=
  match r.2 with
  | Raised _ => True
  | Returned _ => False
  end.

(** ** The speech service *)

(** [Communicate(...).save(outfile)]: one blocking request; the audio
    that comes back is written to [outfile]. *)
Definition save (c : Communicate) (outfile : str) : M unit := fun w =>
  let w1 := log_event (Synthesize c outfile) w in
  match speech_service w1 c with
  | Some d => (write_file outfile (AudioData d) w1, Returned tt)
  | None => (w1, Raised SynthesisError)
  end.

(** ** The media library *)

Definition AudioFileClip (path : str) : M AudioClip := fun w =>
  match files w !! path with
  | Some (AudioData d) =>
      (log_event (Open (AudioHandle path)) w, Returned {| a_path := path; a_duration := d |})
  | _ => (w, Raised (IOError path))
  end.

Definition VideoFileClip (path : str) : M Clip := fun w =>
  match files w !! path with
  | Some (VideoData info) =>
      (log_event (Open (VideoHandle path)) w, Returned (VideoFile path info))
  | _ => (w, Raised (IOError path))
  end.

Definition ImageClip (path : str) : M Clip := fun w =>
  match files w !! path with
  | Some (ImageData img) =>
      (log_event (Open (ImageHandle path)) w, Returned (ImageFile path img))
  | _ => (w, Raised (IOError path))
  end.

(** [concatenate_videoclips(clips)]; an empty list is an error. *)
Definition concatenate_videoclips (clips : list Clip) : M Clip :=
  match clips with
  | [] => raise ValueError
  | _ :: _ => mret (Concatenated clips)
  end.

(** [clip.resize(height=h)]: the new width divides by the old height. *)
Definition resize (c : Clip) (height : Z) : M Clip :=
  if (clip_size c).2 =? 0 then raise ZeroDivisionError else mret (Resized c height).

(** The picture track of an encoded file is made of whole frames: one
    frame at every multiple of [1/f] below the clip's duration, so the
    file runs for the clip's duration rounded up to the next frame. *)
Definition whole_frames (d f : Q) : Q := inject_Z (Qceiling (d * f)) / f.

(** The file the encoder leaves for a clip of duration [d] at [f] frames
    per second. *)
Definition encoded (c : Clip) (d f : Q) : VideoInfo :=
  {| v_duration := whole_frames d f; v_size := clip_size c; v_fps := f;
     v_audio := option_map a_duration (clip_audio c) |}.

(** [clip.write_videofile(out, fps=fps, codec=..., audio_codec=...)]:
    needs a duration and a frame rate (the clip's own when none is
    given).  What the program decides is the job handed to the encoder,
    and that is what the log records; the file at [out] is the
    encoder's.  Whatever a failed run leaves at [out] is unusable.  The
    scratch audio track the library keeps in the working directory while
    it encodes is not represented: the world below holds only the files
    the program itself names. *)
Definition write_videofile (c : Clip) (out : str) (fps : option Q)
    (codec audio_codec : str) : M unit := fun w =>
  match clip_duration c with
  | None => (w, Raised ValueError)
  | Some d =>
      match (match fps with Some f => Some f | None => clip_fps c end) with
      | None => (w, Raised AttributeError)
      | Some f =>
          let job := {| job_clip := c; job_out := out; job_fps := fps;
                        job_codec := codec; job_audio_codec := audio_codec |} in
          let w1 := log_event (Write job) w in
          if encoder w1 job then
            (write_file out (VideoData (encoded c d f)) w1, Returned tt)
          else (write_file out Garbage w1, Raised EncoderError)
      end
  end.

Definition close (c : Clip) : M unit := emit (CloseClip c).
Definition close_audio (a : AudioClip) : M unit := emit (CloseAudio a).

(** ** Temporary files and plain file access *)

(** [tempfile.mkdtemp()] *)
Definition mkdtemp : M str := fun w =>
  (bump_tmp w, Returned (tmp_names w (tmp_next w))).

(** [tempfile.NamedTemporaryFile(suffix=s, delete=False).name] *)
Definition NamedTemporaryFile (sfx : str) : M str := fun w =>
  (bump_tmp w, Returned (tmp_names w (tmp_next w) ++ sfx)).

(** [img.save(path)] *)
Definition image_save (img : Image) (path : str) : M unit := fun w =>
  (write_file path (ImageData img) w, Returned tt).

(** [open(path, "wb").write(data)] *)
Definition write_bytes (path : str) (data : FileContent) : M unit := fun w =>
  (write_file path data w, Returned tt).

(** [open(path, "rb")] *)
Definition open_rb (path : str) : M FileContent := fun w =>
  match files w !! path with
  | Some c => (w, Returned c)
  | None => (w, Raised (IOError path))
  end.

(** [a // b] on floats, converted by [int]. *)
Definition floordiv (a b : Q) : M Z :=
  if Qeq_bool b 0 then raise ZeroDivisionError else mret (Qfloor (a / b)).

End Runtime.

Import Runtime.

(* ===================================================================== *)
(** * The program *)
(* ===================================================================== *)

Module App.

(** [safe_filename], which the program defines but never calls, is
    modelled on its own in [Filename] below. *)

Definition VOICE_PRESETS : list str :=
  [ lit "en-US-GuyNeural"; lit "en-US-JennyNeural"; lit "en-GB-LibbyNeural";
    lit "en-GB-RyanNeural"; lit "en-AU-NatashaNeural"; lit "en-CA-ClaraNeural";
    lit "en-IN-PrabhatNeural"; lit "en-IN-NeerjaNeural" ].

(** The f-string of [_synthesize]. *)
Definition ssml_template (voice prosody text : str) : str :=
  lit "<speak version=" ++ dq ++ lit "1.0" ++ dq ++ lit " xmlns=" ++ dq
    ++ lit "http://www.w3.org/2001/10/synthesis" ++ dq
    ++ lit "><voice name=" ++ dq ++ voice ++ dq
    ++ lit "><prosody" ++ prosody ++ lit ">" ++ text
    ++ lit "</prosody></voice></speak>".

Definition _synthesize (text voice outfile : str) (rate pitch : option str) : M unit :=
  let prosody := [] in
  let prosody :=
    if truthy rate then prosody ++ lit " rate=" ++ dq ++ default [] rate ++ dq
    else prosody in
  let prosody :=
    if truthy pitch then prosody ++ lit " pitch=" ++ dq ++ default [] pitch ++ dq
    else prosody in
  let communicate :=
    if truthy_str prosody then
      let ssml := ssml_template voice prosody text in
      {| c_text := ssml; c_voice := voice |}
    else {| c_text := text; c_voice := voice |} in
  save communicate outfile.

Definition synthesize_tts (text voice out_path : str) (rate_pct pitch_pct : Z) : M unit :=
  let rate := if truthy_int rate_pct then Some (str_of_int rate_pct ++ lit "%") else None in
  let pitch := if truthy_int pitch_pct then Some (str_of_int pitch_pct ++ lit "%") else None in
  _synthesize text voice out_path rate pitch.

Definition create_video_with_voiceover (audio_path : str)
    (video_path image_path : option str) (out_path : str) : M (str * Q) :=
  audio_clip ← AudioFileClip audio_path;
  let duration := a_duration audio_clip in
  (if truthy video_path then
     video ← VideoFileClip (default [] video_path);
     video ← match clip_duration video with
             | None => raise TypeError
             | Some video_duration =>
                 if Qlt_le_dec video_duration duration then
                   q ← floordiv duration video_duration;
                   let n := q + 1 in
                   looped ← concatenate_videoclips (replicate (Z.to_nat n) video);
                   mret (subclip looped 0 duration)
                 else mret (subclip video 0 duration)
             end;
     let video := set_audio video audio_clip in
     write_videofile video out_path None (lit "libx264") (lit "aac");;
     close video
   else
     clip ← (if truthy image_path then ImageClip (default [] image_path)
             else
               let img := {| im_mode := lit "RGB"; im_size := (1280, 720);
                             im_pixels := Solid (0, 0, 0) |} in
               tmp_img ← NamedTemporaryFile (lit ".png");
               image_save img tmp_img;;
               ImageClip tmp_img);
     clip ← resize (set_duration clip duration) 720;
     let clip := set_audio clip audio_clip in
     write_videofile clip out_path (Some 24%Q) (lit "libx264") (lit "aac");;
     close clip);;
  close_audio audio_clip;;
  mret (out_path, duration).

(** An uploaded file: its name and what it holds. *)
Record Upload := {
  up_name : str;
  up_data : FileContent
}.

(** The state of the form when the button is pressed. *)
Record Form := {
  text_input : str;
  voice : str;
  rate : Z;
  pitch : Z;
  upload : option Upload
}.

Definition done_msg : str := [9989%N] ++ lit " Done!".

(** The body of [if st.button("Generate Video"):]. *)
Definition generate_video (f : Form) : M unit :=
  if negb (truthy_str (strip (text_input f))) then
    emit (St_error (lit "Please enter some text."))
  else
    tmp_dir ← mkdtemp;
    let audio_file := path_join tmp_dir (lit "voice.mp3") in
    synthesize_tts (text_input f) (voice f) audio_file (rate f) (pitch f);;
    paths ← match upload f with
            | Some up =>
                let file_path := path_join tmp_dir (up_name up) in
                write_bytes file_path (up_data up);;
                if str_in (lower (suffix file_path)) [lit ".mp4"; lit ".mov"; lit ".webm"]
                then mret (Some file_path, None)
                else mret (None, Some file_path)
            | None => mret (None, None)
            end;
    let out_video := path_join tmp_dir (lit "output.mp4") in
    res ← create_video_with_voiceover audio_file paths.1 paths.2 out_video;
    let final_video := res.1 in
    emit (St_success done_msg);;
    emit (St_video final_video);;
    _ ← open_rb final_video;
    emit (St_download_button (lit "Download MP4") final_video
            (lit "voiceover_video.mp4") (lit "video/mp4"));;
    _ ← open_rb audio_file;
    emit (St_download_button (lit "Download MP3") audio_file
            (lit "voiceover_audio.mp3") (lit "audio/mpeg")).

End App.

Import App.

(* ===================================================================== *)
(** * Reading the trace *)
(* ===================================================================== *)

Module Trace.

(** What a run added to the trace. *)
Definition new_events (before after : World) : list Event :=
  drop (length (log before)) (log after).

(** A computation only ever adds to the trace. *)
Definition Extending {A : Type} (m : M A) : Prop :=
  forall w, exists evs, log (m w).1 = log w ++ evs.

Definition is_synthesize (e : Event) : bool :=
  match e with
  | Synthesize _ _ => true
  | _ => false
  end.

Definition is_open (e : Event) : bool :=
  match e with
  | Open _ => true
  | _ => false
  end.

Definition is_close (e : Event) : bool :=
  match e with
  | CloseClip _ | CloseAudio _ => true
  | _ => false
  end.

(** Events that show or hand out a result to the user. *)
Definition offers_output (e : Event) : bool :=
  match e with
  | St_success _ | St_video _ | St_download_button _ _ _ _ => true
  | _ => false
  end.

(** The clips handed to the encoder. *)
Definition written_clips (evs : list Event) : list Clip :=
  omap (fun e => match e with Write job => Some (job_clip job) | _ => None end) evs.

(** The handles opened. *)
Definition opened (evs : list Event) : list Handle :=
  omap (fun e => match e with Open h => Some h | _ => None end) evs.

Definition is_image_handle (h : Handle) : bool :=
  match h with
  | ImageHandle _ => true
  | _ => false
  end.

(** What follows the first call of the encoder. *)
Fixpoint after_write (evs : list Event) : list Event :=
  match evs with
  | [] => []
  | Write _ :: rest => rest
  | _ :: rest => after_write rest
  end.

(** Was the clip built with [concatenate_videoclips]? *)
Fixpoint uses_concatenation (c : Clip) : bool :=
  match c with
  | VideoFile _ _ | ImageFile _ _ => false
  | Concatenated _ => true
  | Subclip c' _ _ | WithDuration c' _ | Resized c' _ | WithAudio c' _ => uses_concatenation c'
  end.

#[export] Instance Handle_eq_dec : EqDecision Handle.
Proof. solve_decision. Defined.

End Trace.

Import Trace.

(* ===================================================================== *)
(** * The specification's vocabulary *)
(* ===================================================================== *)

Module Spec.

(** ** The markup envelope of the synthesis request, as the
    specification words it: a [speak] element holding a [voice] element
    that names the chosen voice and holds a [prosody] element whose
    attributes are exactly the non-zero adjustments. *)

Inductive Markup :=
| Plain (s : str)
| Element (tag : str) (attrs : list (str * str)) (body : Markup).

Definition render_attr (a : str * str) : str :=
  lit " " ++ a.1 ++ lit "=" ++ dq ++ a.2 ++ dq.

Fixpoint render (m : Markup) : str :=
  match m with
  | Plain s => s
  | Element tag attrs body =>
      lit "<" ++ tag ++ concat (map render_attr attrs) ++ lit ">"
        ++ render body ++ lit "</" ++ tag ++ lit ">"
  end.

Definition percent (z : Z) : str := str_of_int z ++ lit "%".

Definition prosody_attributes (rate_pct pitch_pct : Z) : list (str * str) :=
  (if rate_pct =? 0 then [] else [(lit "rate", percent rate_pct)])
    ++ (if pitch_pct =? 0 then [] else [(lit "pitch", percent pitch_pct)]).

Definition envelope (voice : str) (attrs : list (str * str)) (text : str) : Markup :=
  Element (lit "speak")
    [(lit "version", lit "1.0"); (lit "xmlns", lit "http://www.w3.org/2001/10/synthesis")]
    (Element (lit "voice") [(lit "name", voice)]
       (Element (lit "prosody") attrs (Plain text))).

(** The request the specification expects. *)
Definition expected_request (text voice : str) (rate_pct pitch_pct : Z) : Communicate :=
  {| c_text := if (rate_pct =? 0) && (pitch_pct =? 0) then text
               else render (envelope voice (prosody_attributes rate_pct pitch_pct) text);
     c_voice := voice |}.

(** ** The composer *)

(** [repeatCount = floor(targetDuration / videoDuration) + 1] *)
Definition repeat_count (d vd : Q) : Z := Qfloor (d / vd) + 1.

(** The visual source can be read: the path the composer picks (a
    non-empty video path first, else a non-empty image path) leads to a
    file of that kind; with neither path nothing is required. *)
Definition readable_visual (w : World) (video_path image_path : option str) : Prop :=
  if truthy video_path then
    exists info, files w !! default [] video_path = Some (VideoData info)
  else if truthy image_path then
    exists img, files w !! default [] image_path = Some (ImageData img)
  else True.

(** The visual source can be used: it can be read and it is a video of
    positive duration or a picture of non-zero height. *)
Definition usable_visual (w : World) (video_path image_path : option str) : Prop :=
  if truthy video_path then
    exists info, files w !! default [] video_path = Some (VideoData info)
                 /\ (0 < v_duration info)%Q
  else if truthy image_path then
    exists img, files w !! default [] image_path = Some (ImageData img)
                /\ (im_size img).2 <> 0
  else True.

(** The encoder cannot complete a job whose clip has no length. *)
Definition rejects_empty_clips (w : World) : Prop :=
  forall job x, clip_duration (job_clip job) = Some x -> (x == 0)%Q -> encoder w job = false.

(** Every clip handed to the encoder is 720 units high. *)
Definition height_normalised (evs : list Event) : Prop :=
  Forall (fun c => (clip_size c).2 = 720) (written_clips evs).

(** A [close] call releases a handle when it is made on the audio clip
    that holds it or on a clip built from the clip that holds it. *)
Definition releases (h : Handle) (e : Event) : bool :=
  match e with
  | CloseAudio a => bool_decide (h = AudioHandle (a_path a))
  | CloseClip c => bool_decide (h ∈ clip_handles c)
  | _ => false
  end.

(** Every handle opened in the trace is released by a later [close]
    made after the encoder was called. *)
Fixpoint all_released (evs : list Event) : bool :=
  match evs with
  | [] => true
  | Open h :: rest => existsb (releases h) (after_write rest) && all_released rest
  | _ :: rest => all_released rest
  end.

End Spec.

Import Spec.

(* ===================================================================== *)
(** * The runs of the composer *)
(* ===================================================================== *)

Module Runs.

(** The black picture generated when nothing was uploaded. *)
Definition black_frame : Image :=
  {| im_mode := lit "RGB"; im_size := (1280, 720); im_pixels := Solid (0, 0, 0) |}.

(** The visual track built from a video shorter than the audio. *)
Definition looped_track (video : Clip) (d vd : Q) : Clip :=
  subclip (Concatenated (replicate (Z.to_nat (repeat_count d vd)) video)) 0 d.

(** The visual track built from a still picture. *)
Definition still_track (picture : Clip) (d : Q) : Clip :=
  Resized (set_duration picture d) 720.

(** The steps every branch ends with once its track [c] carries the
    audio: encode, close the track, close the audio, return. *)
Definition encode_and_close (c : Clip) (audio : AudioClip) (out : str) (fps : option Q)
    : M (str * Q) :=
  write_videofile c out fps (lit "libx264") (lit "aac");;
  close c;;
  close_audio audio;;
  mret (out, a_duration audio).

Definition job_of (c : Clip) (out : str) (fps : option Q) : EncodeJob :=
  {| job_clip := c; job_out := out; job_fps := fps;
     job_codec := lit "libx264"; job_audio_codec := lit "aac" |}.

(** A run of the composer goes one of two ways: either it stops with an
    exception before the encoder is called, having only opened files, or
    it reaches the last steps with a track that lasts as long as the audio
    and is built from the files it opened. *)
Inductive ComposerRun (w : World) (audio_path : str) (video_path image_path : option str)
    (out_path : str) : World * Outcome (str * Q) -> Prop :=
| Stopped (w' : World) (e : Exn) (opens : list Event) :
    log w' = log w ++ opens ->
    forallb is_open opens = true ->
    (truthy video_path = true -> existsb is_image_handle (opened opens) = false) ->
    ComposerRun w audio_path video_path image_path out_path (w', Raised e)
| Encoding (d x f : Q) (c : Clip) (fps : option Q) (w0 : World) (opens : list Event) :
    files w !! audio_path = Some (AudioData d) ->
    readable_visual w video_path image_path ->
    log w0 = log w ++ opens ->
    forallb is_open opens = true ->
    (truthy video_path = true -> existsb is_image_handle (opened opens) = false) ->
    Forall (fun h => h ∈ clip_handles c) (opened opens) ->
    encoder w0 = encoder w ->
    (forall p, is_Some (files w !! p) -> is_Some (files w0 !! p)) ->
    clip_duration c = Some x ->
    (x == d)%Q ->
    (match fps with Some f => Some f | None => clip_fps c end) = Some f ->
    ComposerRun w audio_path video_path image_path out_path
      (encode_and_close c {| a_path := audio_path; a_duration := d |} out_path fps w0).

End Runs.

Import Runs.

(* ===================================================================== *)
(** * Sample worlds *)
(* ===================================================================== *)

Module Samples.

(** A ten-second 1920x1080 video at 30 frames per second, silent. *)
Definition demo_video : VideoInfo :=
  {| v_duration := 10; v_size := (1920, 1080); v_fps := 30; v_audio := None |}.

(** A clip of a second and a half, 640x360 at 25 frames per second. *)
Definition demo_short_video : VideoInfo :=
  {| v_duration := 3 # 2; v_size := (640, 360); v_fps := 25; v_audio := Some (3 # 2) |}.

(** A 4000x3000 photograph (its pixel rows left out). *)
Definition demo_photo : Image :=
  {| im_mode := lit "RGB"; im_size := (4000, 3000); im_pixels := Raster [] |}.

(** A scratch directory holding a four-second narration, the two videos
    and the photograph; the speech service answers every request with four
    seconds of audio and the encoder completes every job. *)
Definition demo_world : World :=
  {| files := <[lit "voice.mp3" := AudioData 4]>
                (<[lit "clip.mp4" := VideoData demo_video]>
                   (<[lit "intro.mp4" := VideoData demo_short_video]>
                      (<[lit "photo.png" := ImageData demo_photo]> ∅)));
     speech_service := fun _ => Some 4%Q;
     encoder := fun _ => true;
     tmp_names := fun n => lit "/tmp/tmp" ++ str_of_int (Z.of_nat n);
     tmp_next := 0;
     log := [] |}.

(** The same directory with an encoder that fails on every job. *)
Definition broken_encoder_world : World :=
  {| files := files demo_world;
     speech_service := speech_service demo_world;
     encoder := fun _ => false;
     tmp_names := tmp_names demo_world;
     tmp_next := 0;
     log := [] |}.

(** An encoder that completes every job but those of no length. *)
Definition strict_encoder (job : EncodeJob) : bool :=
  match clip_duration (job_clip job) with
  | Some x => negb (Qeq_bool x 0)
  | None => false
  end.

(** A directory whose narration is empty, with that encoder. *)
Definition silent_world : World :=
  {| files := <[lit "silence.mp3" := AudioData 0]>
                (<[lit "clip.mp4" := VideoData demo_video]> ∅);
     speech_service := fun _ => Some 0%Q;
     encoder := strict_encoder;
     tmp_names := fun n => lit "/tmp/tmp" ++ str_of_int (Z.of_nat n);
     tmp_next := 0;
     log := [] |}.

(** A filled form with nothing uploaded. *)
Definition hello_form : Form :=
  {| text_input := lit "Hello there"; voice := lit "en-GB-RyanNeural";
     rate := 10; pitch := 0; upload := None |}.

End Samples.

Import Samples.

(* ===================================================================== *)
(** * The rest of the program *)
(* ===================================================================== *)

Module Filename.

(** The characters of a printed integer. *)
Definition is_sign_or_digit (c : N) : bool :=
  ((c =? 45) || (48 <=? c) && (c <=? 57))%N.

Section Alnum.

(** [str.isalnum] beyond ASCII is a lookup in the Unicode database; it is
    left open. *)
Variable isalnum_wide : N -> bool.

(** [c.isalnum()] for one code point: within ASCII, the digits and the
    letters. *)
Definition isalnum (c : N) : bool :=
  if (c <? 128)%N then
    ((48 <=? c) && (c <=? 57) || (65 <=? c) && (c <=? 90) || (97 <=? c) && (c <=? 122))%N
  else isalnum_wide c.

Definition underscore : N := 95%N.

(** [int(x)] for a float: truncation towards zero. *)
Definition int_of_float (x : Q) : Z := Z.quot (Qnum x) (Z.pos (Qden x)).

(** [safe_filename(base, ext)], with the value of [time.time()] it reads
    passed as [now]. *)
Definition safe_filename (now : Q) (base ext : str) : str :=
  let ts := int_of_float now in
  let safe := take 40 (map (fun c => if isalnum c then c else underscore) base) in
  safe ++ lit "_" ++ str_of_int ts ++ lit "." ++ ext.

End Alnum.

End Filename.

Import Filename.

Module Handler.

(** The extensions the handler takes for a video. *)
Definition video_suffixes : list str := [lit ".mp4"; lit ".mov"; lit ".webm"].

(** [file_path.suffix.lower() in [".mp4", ".mov", ".webm"]] *)
Definition is_video_name (file_path : str) : bool :=
  str_in (lower (suffix file_path)) video_suffixes.

(** What the handler does once the composer has returned [res]: the last
    lines of the [else] branch. *)
Definition publish (audio_file : str) (res : str * Q) : M unit :=
  let final_video := res.1 in
  emit (St_success done_msg);;
  emit (St_video final_video);;
  _ ← open_rb final_video;
  emit (St_download_button (lit "Download MP4") final_video
          (lit "voiceover_video.mp4") (lit "video/mp4"));;
  _ ← open_rb audio_file;
  emit (St_download_button (lit "Download MP3") audio_file
          (lit "voiceover_audio.mp3") (lit "audio/mpeg")).

(** The four things shown after a successful composition. *)
Definition published (audio_file final_video : str) : list Event :=
  [ St_success done_msg;
    St_video final_video;
    St_download_button (lit "Download MP4") final_video
      (lit "voiceover_video.mp4") (lit "video/mp4");
    St_download_button (lit "Download MP3") audio_file
      (lit "voiceover_audio.mp3") (lit "audio/mpeg") ].

(** The world in which the handler calls the composer, when the speech
    service has answered with [dur] seconds of audio, and the two paths it
    passes. *)
Definition staged (fm : Form) (w : World) (dur : Q) : World * (option str * option str) :=
  let tmp_dir := tmp_names w (tmp_next w) in
  let audio_file := path_join tmp_dir (lit "voice.mp3") in
  let req := expected_request (text_input fm) (voice fm) (rate fm) (pitch fm) in
  let w2 := write_file audio_file (AudioData dur)
              (log_event (Synthesize req audio_file) (bump_tmp w)) in
  match upload fm with
  | Some up =>
      let file_path := path_join tmp_dir (up_name up) in
      (write_file file_path (up_data up) w2,
       if is_video_name file_path then (Some file_path, None) else (None, Some file_path))
  | None => (w2, (None, None))
  end.

(** The upload, if any, is what its name says: a video of positive
    duration under a video extension, a picture of non-zero height under
    any other name; and it does not take the place of the narration. *)
Definition upload_fits (fm : Form) (tmp_dir : str) : Prop :=
  match upload fm with
  | None => True
  | Some up =>
      let file_path := path_join tmp_dir (up_name up) in
      file_path <> path_join tmp_dir (lit "voice.mp3")
      /\ if is_video_name file_path then
           exists info, up_data up = VideoData info /\ (0 < v_duration info)%Q
         else
           exists img, up_data up = ImageData img /\ (im_size img).2 <> 0
  end.

(** The upload is not what its name says. *)
Definition upload_misnamed (up : Upload) (file_path : str) : Prop :=
  if is_video_name file_path then forall info, up_data up <> VideoData info
  else forall img, up_data up <> ImageData img.

End Handler.

Import Handler.

Module MoreSamples.

(** Nothing beyond ASCII counts as alphanumeric. *)
Definition ascii_only : N -> bool := fun _ => false.

(** The form of [hello_form] with a video uploaded under an upper-case
    extension. *)
Definition video_form : Form :=
  {| text_input := lit "Hello there"; voice := lit "en-GB-RyanNeural";
     rate := 10; pitch := 0;
     upload := Some {| up_name := lit "Holiday.MP4"; up_data := VideoData demo_video |} |}.

(** The same form with a photograph uploaded under a video name. *)
Definition misnamed_form : Form :=
  {| text_input := lit "Hello there"; voice := lit "en-GB-RyanNeural";
     rate := 10; pitch := 0;
     upload := Some {| up_name := lit "photo.mp4"; up_data := ImageData demo_photo |} |}.

(** A world whose speech service is down. *)
Definition offline_world : World :=
  {| files := files demo_world;
     speech_service := fun _ => None;
     encoder := encoder demo_world;
     tmp_names := tmp_names demo_world;
     tmp_next := 0;
     log := [] |}.

(** A still: a video file of no length. *)
Definition demo_still_video : VideoInfo :=
  {| v_duration := 0; v_size := (640, 360); v_fps := 25; v_audio := None |}.

Definition still_world : World :=
  {| files := <[lit "still.mp4" := VideoData demo_still_video]> (files demo_world);
     speech_service := speech_service demo_world;
     encoder := encoder demo_world;
     tmp_names := tmp_names demo_world;
     tmp_next := 0;
     log := [] |}.

End MoreSamples.

Import MoreSamples.

(** String literals and printed numbers stay folded during proofs. *)
#[global] Arguments lit : simpl never.
#[global] Arguments str_of_int : simpl never.

(* ===================================================================== *)
(** * Python built-ins: facts *)
(* ===================================================================== *)

Example str_of_int_negative : str_of_int (-40) = lit "-40".
Proof. reflexivity. Qed.

Example str_of_int_zero : str_of_int 0 = lit "0".
Proof. reflexivity. Qed.

Example strip_both_ends : strip (lit "  a b  ") = lit "a b".
Proof. reflexivity. Qed.

Example strip_no_break_space : strip [160%N; 9%N; 12288%N] = [].
Proof. reflexivity. Qed.

Example suffix_of_upload : lower (suffix (lit "/tmp/tmp0/Holiday.Clip.MP4")) = lit ".mp4".
Proof. reflexivity. Qed.

Example suffix_of_dotfile : suffix (lit "/tmp/tmp0/.hidden") = [].
Proof. reflexivity. Qed.

Example path_join_relative : path_join (lit "/tmp/tmp0") (lit "voice.mp3")
    = lit "/tmp/tmp0/voice.mp3".
Proof. reflexivity. Qed.

Lemma lstrip_nil_iff (s : str) : lstrip s = [] <-> forallb isspace s = true.
Proof.
  induction s as [|c s IH]; simpl; [tauto|].
  destruct (isspace c); simpl; [exact IH|].
  split; intros H; discriminate H.
Qed.

(** What [lstrip] keeps does not start with white space. *)
Lemma lstrip_head (s : str) c l : lstrip s = c :: l -> isspace c = false.
Proof.
  induction s as [|a s IH]; simpl; [discriminate|].
  destruct (isspace a) eqn:Ea; [exact IH|].
  intros [= -> _]. exact Ea.
Qed.

(** [not s.strip()] holds exactly for the strings made of white space only
    (the empty string among them). *)
Lemma strip_falsy_iff (s : str) :
  truthy_str (strip s) = false <-> forallb isspace s = true.
Proof.
  unfold strip, rstrip. split.
  - intros H. apply lstrip_nil_iff.
    destruct (lstrip s) as [|c l] eqn:E; [reflexivity|].
    exfalso.
    pose proof (lstrip_head _ _ _ E) as Hc.
    assert (Hn : lstrip (rev (c :: l)) = []).
    { destruct (lstrip (rev (c :: l))) as [|x r] eqn:Er; [reflexivity|].
      assert (Hr : rev (x :: r) <> []).
      { intros Hr. apply (f_equal (@length N)) in Hr.
        rewrite length_rev in Hr. discriminate Hr. }
      destruct (rev (x :: r)); [congruence | discriminate H]. }
    apply lstrip_nil_iff in Hn. rewrite forallb_forall in Hn.
    assert (Hin : In c (rev (c :: l))) by (rewrite <- in_rev; left; reflexivity).
    rewrite (Hn c Hin) in Hc. discriminate Hc.
  - intros H. apply lstrip_nil_iff in H. rewrite H. reflexivity.
Qed.

(* ===================================================================== *)
(** * The trace *)
(* ===================================================================== *)

Lemma new_events_app (w w' : World) (evs : list Event) :
  log w' = log w ++ evs -> new_events w w' = evs.
Proof. intros H. unfold new_events. rewrite H. apply drop_app_length. Qed.

(* ===================================================================== *)
(** * Speech synthesis *)
(* ===================================================================== *)

Lemma truthy_percent (z : Z) : truthy_str (str_of_int z ++ lit "%") = true.
Proof. destruct (str_of_int z); reflexivity. Qed.

(** [save] sends exactly one request, whatever the service answers. *)
Lemma save_log (c : Communicate) (outfile : str) (w : World) :
  log (save c outfile w).1 = log w ++ [Synthesize c outfile].
Proof. unfold save. simpl. destruct (speech_service w c); reflexivity. Qed.

(** The string built by [_synthesize] is the rendering of the envelope. *)
Lemma ssml_template_render (voice text : str) (attrs : list (str * str)) :
  ssml_template voice (concat (map render_attr attrs)) text
  = render (envelope voice attrs text).
Proof.
  unfold ssml_template, envelope, render, render_attr, dq, lit. cbn.
  repeat (rewrite <- ?app_assoc; cbn). reflexivity.
Qed.

(** [synthesize_tts] sends the request the specification expects. *)
Lemma synthesize_tts_is_save (text voice out_path : str) (rate_pct pitch_pct : Z) :
  synthesize_tts text voice out_path rate_pct pitch_pct
  = save (expected_request text voice rate_pct pitch_pct) out_path.
Proof.
  unfold synthesize_tts, _synthesize. f_equal.
  unfold expected_request, truthy_int, prosody_attributes, percent.
  destruct (rate_pct =? 0), (pitch_pct =? 0); cbn [negb andb truthy default app];
    rewrite ?truthy_percent; try reflexivity.
  all: f_equal; rewrite <- ssml_template_render; unfold render_attr, lit; cbn;
    rewrite <- ?app_assoc, ?app_nil_r; reflexivity.
Qed.

Lemma synthesize_tts_log (text voice out_path : str) (rate_pct pitch_pct : Z) (w : World) :
  log (synthesize_tts text voice out_path rate_pct pitch_pct w).1
  = log w ++ [Synthesize (expected_request text voice rate_pct pitch_pct) out_path].
Proof. rewrite synthesize_tts_is_save. apply save_log. Qed.

(** A rate of +10 and a pitch of -5 for the voice "en-US-GuyNeural". *)
Example ssml_for_rate_and_pitch :
  c_text (expected_request (lit "Hi") (lit "en-US-GuyNeural") 10 (-5))
  = lit "<speak version=" ++ dq ++ lit "1.0" ++ dq ++ lit " xmlns=" ++ dq
      ++ lit "http://www.w3.org/2001/10/synthesis" ++ dq
      ++ lit "><voice name=" ++ dq ++ lit "en-US-GuyNeural" ++ dq
      ++ lit "><prosody rate=" ++ dq ++ lit "10%" ++ dq
      ++ lit " pitch=" ++ dq ++ lit "-5%" ++ dq
      ++ lit ">Hi</prosody></voice></speak>".
Proof. reflexivity. Qed.

(** C4.  The request sent to the speech service carries the narration
    text as it is when rate and pitch are both zero; otherwise it carries
    the markup envelope whose [prosody] element has exactly the non-zero
    adjustments as [rate="<r>%"] / [pitch="<p>%"] attributes, inside the
    [voice] element that names the chosen voice.  In both cases one
    request is sent, for the chosen voice. *)
Theorem synthesize_tts_request (text voice out_path : str) (rate_pct pitch_pct : Z) (w : World) :
  new_events w (synthesize_tts text voice out_path rate_pct pitch_pct w).1
  = [Synthesize (expected_request text voice rate_pct pitch_pct) out_path].
Proof. apply new_events_app, synthesize_tts_log. Qed.

(* ===================================================================== *)
(** * Running the primitives *)
(* ===================================================================== *)

Lemma bind_run {A B : Type} (m : M A) (f : A -> M B) (w : World) :
  (m ≫= f) w = match m w with
               | (w', Returned a) => f a w'
               | (w', Raised e) => (w', Raised e)
               end.
Proof. reflexivity. Qed.

Lemma AudioFileClip_ok (w : World) (path : str) (d : Q) :
  files w !! path = Some (AudioData d) ->
  AudioFileClip path w
  = (log_event (Open (AudioHandle path)) w, Returned {| a_path := path; a_duration := d |}).
Proof. intros H. unfold AudioFileClip. rewrite H. reflexivity. Qed.

Lemma VideoFileClip_ok (w : World) (path : str) (info : VideoInfo) :
  files w !! path = Some (VideoData info) ->
  VideoFileClip path w = (log_event (Open (VideoHandle path)) w, Returned (VideoFile path info)).
Proof. intros H. unfold VideoFileClip. rewrite H. reflexivity. Qed.

Lemma ImageClip_ok (w : World) (path : str) (img : Image) :
  files w !! path = Some (ImageData img) ->
  ImageClip path w = (log_event (Open (ImageHandle path)) w, Returned (ImageFile path img)).
Proof. intros H. unfold ImageClip. rewrite H. reflexivity. Qed.

Lemma write_videofile_run (c : Clip) (out : str) (fps : option Q) (codec acodec : str)
    (w : World) (d f : Q) :
  clip_duration c = Some d ->
  (match fps with Some f => Some f | None => clip_fps c end) = Some f ->
  write_videofile c out fps codec acodec w
  = let job := {| job_clip := c; job_out := out; job_fps := fps;
                  job_codec := codec; job_audio_codec := acodec |} in
    let w1 := log_event (Write job) w in
    if encoder w job then
      (write_file out (VideoData (encoded c d f)) w1, Returned tt)
    else (write_file out Garbage w1, Raised EncoderError).
Proof. intros Hd Hf. unfold write_videofile. rewrite Hd, Hf. reflexivity. Qed.

Ltac run_step :=
  first
    [ rewrite bind_run
    | erewrite AudioFileClip_ok by (cbn; eassumption)
    | erewrite VideoFileClip_ok by (cbn; eassumption)
    | erewrite ImageClip_ok by (cbn; eassumption) ].

Lemma bind_assoc_run {A B C : Type} (m : M A) (f : A -> M B) (g : B -> M C) (w : World) :
  ((m ≫= f) ≫= g) w = (m ≫= (fun x => f x ≫= g)) w.
Proof. rewrite !bind_run. destruct (m w) as [w' [a|e]]; reflexivity. Qed.

Lemma Qlt_le_dec_ge {A : Type} (x y : Q) (a b : A) :
  (y <= x)%Q -> (if Qlt_le_dec x y then a else b) = b.
Proof. intros H. destruct (Qlt_le_dec x y) as [Hlt|_]; [lra | reflexivity]. Qed.

Lemma Qlt_le_dec_lt {A : Type} (x y : Q) (a b : A) :
  (x < y)%Q -> (if Qlt_le_dec x y then a else b) = a.
Proof. intros H. destruct (Qlt_le_dec x y) as [_|Hle]; [reflexivity | lra]. Qed.

(** The end of a branch: the encoder decides between a finished file
    followed by the two [close] calls and an exception with nothing
    closed. *)
Lemma encode_and_close_run (c : Clip) (audio : AudioClip) (out : str) (fps : option Q)
    (w : World) (d f : Q) :
  clip_duration c = Some d ->
  (match fps with Some f => Some f | None => clip_fps c end) = Some f ->
  encode_and_close c audio out fps w
  = let w1 := log_event (Write (job_of c out fps)) w in
    if encoder w (job_of c out fps) then
      (log_event (CloseAudio audio)
         (log_event (CloseClip c)
            (write_file out (VideoData (encoded c d f)) w1)),
       Returned (out, a_duration audio))
    else (write_file out Garbage w1, Raised EncoderError).
Proof.
  intros Hd Hf. unfold encode_and_close. rewrite bind_run.
  erewrite write_videofile_run by eassumption. cbn zeta. unfold job_of.
  destruct (encoder w _); reflexivity.
Qed.

(* ===================================================================== *)
(** * Arithmetic of the loop count *)
(* ===================================================================== *)

(** At least one copy is made. *)
Lemma repeat_count_pos (d vd : Q) : (0 <= d)%Q -> (0 < vd)%Q -> 1 <= repeat_count d vd.
Proof.
  intros Hd Hvd. unfold repeat_count.
  assert (H0 : (0 <= d / vd)%Q).
  { apply Qle_shift_div_l; [exact Hvd | lra]. }
  apply Qfloor_resp_le in H0. change (Qfloor 0) with 0 in H0. lia.
Qed.

(** The copies cover the audio, and one copy less would not go past it. *)
Lemma repeat_count_bounds (d vd : Q) :
  (0 < vd)%Q ->
  (d < inject_Z (repeat_count d vd) * vd)%Q
  /\ (inject_Z (repeat_count d vd) * vd - vd <= d)%Q.
Proof.
  intros Hvd. unfold repeat_count.
  pose proof (Qfloor_le (d / vd)) as Hlo.
  pose proof (Qlt_floor (d / vd)) as Hhi.
  rewrite inject_Z_plus in *. change (inject_Z 1) with 1%Q in *.
  assert (Hq : (d / vd * vd == d)%Q) by (field; lra).
  set (q := (d / vd)%Q) in *. set (f := inject_Z (Qfloor q)) in *.
  split; nra.
Qed.

(* ===================================================================== *)
(** * The composer, branch by branch *)
(* ===================================================================== *)

(** Without a readable audio file nothing else is attempted. *)
Lemma compose_audio_unreadable (w : World) (audio_path : str)
    (video_path image_path : option str) (out_path : str) :
  (forall d, files w !! audio_path <> Some (AudioData d)) ->
  create_video_with_voiceover audio_path video_path image_path out_path w
  = (w, Raised (IOError audio_path)).
Proof.
  intros Ha. unfold create_video_with_voiceover. rewrite bind_run.
  unfold AudioFileClip.
  destruct (files w !! audio_path) as [[d | | |]|]; try reflexivity.
  destruct (Ha d). reflexivity.
Qed.

Section Branches.

Variables (w : World) (audio_path out_path : str) (d : Q).
Hypothesis audio_readable : files w !! audio_path = Some (AudioData d).

Let audio : AudioClip := {| a_path := audio_path; a_duration := d |}.
Let w_audio : World := log_event (Open (AudioHandle audio_path)) w.

(** A supplied video at least as long as the audio. *)
Lemma compose_long_video (video_path : str) (image_path : option str) (info : VideoInfo) :
  truthy_str video_path = true ->
  files w !! video_path = Some (VideoData info) ->
  (d <= v_duration info)%Q ->
  create_video_with_voiceover audio_path (Some video_path) image_path out_path w
  = encode_and_close (set_audio (subclip (VideoFile video_path info) 0 d) audio)
      audio out_path None (log_event (Open (VideoHandle video_path)) w_audio).
Proof.
  intros Hv Hf Hle. unfold create_video_with_voiceover.
  repeat run_step. cbn [truthy default a_duration id]. rewrite Hv.
  repeat run_step. cbn [clip_duration]. rewrite Qlt_le_dec_ge by exact Hle.
  unfold encode_and_close. rewrite <- bind_assoc_run. reflexivity.
Qed.

(** A supplied video shorter than the audio, when the division and
    the concatenation go through. *)
Lemma compose_short_video_gen (video_path : str) (image_path : option str)
    (info : VideoInfo) (k : nat) :
  truthy_str video_path = true ->
  files w !! video_path = Some (VideoData info) ->
  (v_duration info < d)%Q ->
  Qeq_bool (v_duration info) 0 = false ->
  Z.to_nat (repeat_count d (v_duration info)) = S k ->
  create_video_with_voiceover audio_path (Some video_path) image_path out_path w
  = encode_and_close
      (set_audio (looped_track (VideoFile video_path info) d (v_duration info)) audio)
      audio out_path None (log_event (Open (VideoHandle video_path)) w_audio).
Proof.
  intros Hv Hf Hlt Hnz Hk. unfold create_video_with_voiceover.
  repeat run_step. cbn [truthy default a_duration id]. rewrite Hv.
  repeat run_step. cbn [clip_duration]. rewrite Qlt_le_dec_lt by exact Hlt.
  unfold floordiv. rewrite Hnz.
  unfold mret, M_ret. repeat run_step.
  unfold looped_track, repeat_count in *. rewrite Hk.
  cbn [replicate concatenate_videoclips]. unfold mret, M_ret. repeat run_step.
  unfold encode_and_close. rewrite <- bind_assoc_run. reflexivity.
Qed.

(** A supplied video shorter than the audio. *)
Lemma compose_short_video (video_path : str) (image_path : option str) (info : VideoInfo) :
  truthy_str video_path = true ->
  files w !! video_path = Some (VideoData info) ->
  (0 < v_duration info)%Q ->
  (v_duration info < d)%Q ->
  create_video_with_voiceover audio_path (Some video_path) image_path out_path w
  = encode_and_close
      (set_audio (looped_track (VideoFile video_path info) d (v_duration info)) audio)
      audio out_path None (log_event (Open (VideoHandle video_path)) w_audio).
Proof.
  intros Hv Hf Hpos Hlt.
  pose proof (repeat_count_pos d (v_duration info) ltac:(lra) Hpos) as Hn.
  destruct (Z.to_nat (repeat_count d (v_duration info))) as [|k] eqn:Ek; [lia|].
  apply (compose_short_video_gen video_path image_path info k); try assumption.
  destruct (Qeq_bool (v_duration info) 0) eqn:E; [|reflexivity].
  apply Qeq_bool_eq in E. lra.
Qed.

(** The ways the video branch stops early. *)
Lemma compose_video_unreadable (video_path : str) (image_path : option str) :
  truthy_str video_path = true ->
  (forall info, files w !! video_path <> Some (VideoData info)) ->
  create_video_with_voiceover audio_path (Some video_path) image_path out_path w
  = (w_audio, Raised (IOError video_path)).
Proof.
  intros Hv Hf. unfold create_video_with_voiceover.
  repeat run_step. cbn [truthy default a_duration id]. rewrite Hv.
  repeat run_step. unfold VideoFileClip. cbn [files w_audio log_event].
  destruct (files w !! video_path) as [[| info | |]|]; try reflexivity.
  destruct (Hf info). reflexivity.
Qed.

Lemma compose_video_zero_duration (video_path : str) (image_path : option str)
    (info : VideoInfo) :
  truthy_str video_path = true ->
  files w !! video_path = Some (VideoData info) ->
  (v_duration info < d)%Q ->
  Qeq_bool (v_duration info) 0 = true ->
  create_video_with_voiceover audio_path (Some video_path) image_path out_path w
  = (log_event (Open (VideoHandle video_path)) w_audio, Raised ZeroDivisionError).
Proof.
  intros Hv Hf Hlt Hz. unfold create_video_with_voiceover.
  repeat run_step. cbn [truthy default a_duration id]. rewrite Hv.
  repeat run_step. cbn [clip_duration]. rewrite Qlt_le_dec_lt by exact Hlt.
  unfold floordiv. rewrite Hz. reflexivity.
Qed.

Lemma compose_video_no_copy (video_path : str) (image_path : option str)
    (info : VideoInfo) :
  truthy_str video_path = true ->
  files w !! video_path = Some (VideoData info) ->
  (v_duration info < d)%Q ->
  Qeq_bool (v_duration info) 0 = false ->
  Z.to_nat (repeat_count d (v_duration info)) = 0%nat ->
  create_video_with_voiceover audio_path (Some video_path) image_path out_path w
  = (log_event (Open (VideoHandle video_path)) w_audio, Raised ValueError).
Proof.
  intros Hv Hf Hlt Hnz Hk. unfold create_video_with_voiceover.
  repeat run_step. cbn [truthy default a_duration id]. rewrite Hv.
  repeat run_step. cbn [clip_duration]. rewrite Qlt_le_dec_lt by exact Hlt.
  unfold floordiv. rewrite Hnz.
  unfold mret, M_ret. repeat run_step.
  unfold repeat_count in Hk. rewrite Hk. reflexivity.
Qed.

(** The ways the image branch stops early. *)
Lemma compose_image_unreadable (video_path : option str) (image_path : str) :
  truthy video_path = false ->
  truthy_str image_path = true ->
  (forall img, files w !! image_path <> Some (ImageData img)) ->
  create_video_with_voiceover audio_path video_path (Some image_path) out_path w
  = (w_audio, Raised (IOError image_path)).
Proof.
  intros Hv Hi Hf. unfold create_video_with_voiceover.
  repeat run_step. rewrite Hv. cbn [truthy default a_duration id]. rewrite Hi.
  repeat run_step. unfold ImageClip. cbn [files w_audio log_event].
  destruct (files w !! image_path) as [[| | img |]|]; try reflexivity.
  destruct (Hf img). reflexivity.
Qed.

Lemma compose_image_flat (video_path : option str) (image_path : str) (img : Image) :
  truthy video_path = false ->
  truthy_str image_path = true ->
  files w !! image_path = Some (ImageData img) ->
  (im_size img).2 = 0 ->
  create_video_with_voiceover audio_path video_path (Some image_path) out_path w
  = (log_event (Open (ImageHandle image_path)) w_audio, Raised ZeroDivisionError).
Proof.
  intros Hv Hi Hf Hh. unfold create_video_with_voiceover.
  repeat run_step. rewrite Hv. cbn [truthy default a_duration id]. rewrite Hi.
  repeat run_step. unfold resize. cbn [clip_size set_duration].
  rewrite Hh. reflexivity.
Qed.

(** No usable video path, a supplied image. *)
Lemma compose_image (video_path : option str) (image_path : str) (img : Image) :
  truthy video_path = false ->
  truthy_str image_path = true ->
  files w !! image_path = Some (ImageData img) ->
  (im_size img).2 <> 0 ->
  create_video_with_voiceover audio_path video_path (Some image_path) out_path w
  = encode_and_close (set_audio (still_track (ImageFile image_path img) d) audio)
      audio out_path (Some 24%Q) (log_event (Open (ImageHandle image_path)) w_audio).
Proof.
  intros Hv Hi Hf Hh. unfold create_video_with_voiceover.
  repeat run_step. rewrite Hv. cbn [truthy default a_duration id]. rewrite Hi.
  repeat run_step. unfold resize. cbn [clip_size set_duration].
  apply Z.eqb_neq in Hh. rewrite Hh.
  unfold mret, M_ret. repeat run_step.
  unfold encode_and_close. rewrite <- bind_assoc_run. reflexivity.
Qed.

(** Neither a usable video path nor a usable image path. *)
Lemma compose_placeholder (video_path image_path : option str) :
  truthy video_path = false ->
  truthy image_path = false ->
  let tmp := tmp_names w (tmp_next w) ++ lit ".png" in
  create_video_with_voiceover audio_path video_path image_path out_path w
  = encode_and_close (set_audio (still_track (ImageFile tmp black_frame) d) audio)
      audio out_path (Some 24%Q)
      (log_event (Open (ImageHandle tmp))
         (write_file tmp (ImageData black_frame) (bump_tmp w_audio))).
Proof.
  intros Hv Hi tmp. unfold create_video_with_voiceover.
  repeat run_step. rewrite Hv, Hi. cbn [a_duration].
  unfold NamedTemporaryFile, image_save. repeat run_step.
  cbn [tmp_names tmp_next w_audio log_event].
  erewrite ImageClip_ok by (cbn; apply lookup_insert_eq).
  unfold resize. cbn [clip_size set_duration im_size snd]. cbn [Z.eqb].
  unfold mret, M_ret. repeat run_step.
  unfold encode_and_close. rewrite <- bind_assoc_run. reflexivity.
Qed.

End Branches.

(** What a branch adds to the trace: its [opens], the call of the
    encoder and, when the encoder completes, the two [close] calls. *)
Lemma encode_and_close_events (w w0 : World) (opens : list Event) (c : Clip)
    (audio : AudioClip) (out : str) (fps : option Q) (d f : Q) :
  log w0 = log w ++ opens ->
  clip_duration c = Some d ->
  (match fps with Some f => Some f | None => clip_fps c end) = Some f ->
  new_events w (encode_and_close c audio out fps w0).1
  = opens ++ Write (job_of c out fps)
      :: (if encoder w0 (job_of c out fps) then [CloseClip c; CloseAudio audio] else []).
Proof.
  intros Hlog Hd Hf. apply new_events_app.
  erewrite encode_and_close_run by eassumption. cbn zeta.
  destruct (encoder w0 _); cbn; rewrite Hlog, <- ?app_assoc; reflexivity.
Qed.

(** When the encoder completes the job, the branch returns the output
    path with the audio's duration and leaves the encoded file there. *)
Lemma encode_and_close_ok (c : Clip) (audio : AudioClip) (out : str) (fps : option Q)
    (w : World) (d f : Q) :
  clip_duration c = Some d ->
  (match fps with Some f => Some f | None => clip_fps c end) = Some f ->
  encoder w (job_of c out fps) = true ->
  let r := encode_and_close c audio out fps w in
  r.2 = Returned (out, a_duration audio)
  /\ files r.1 !! out = Some (VideoData (encoded c d f)).
Proof.
  intros Hd Hf He r. subst r.
  erewrite encode_and_close_run by eassumption. cbn zeta. rewrite He.
  split; [reflexivity|]. cbn. apply lookup_insert_eq.
Qed.

Lemma written_clips_app (l1 l2 : list Event) :
  written_clips (l1 ++ l2) = written_clips l1 ++ written_clips l2.
Proof. unfold written_clips. apply omap_app. Qed.

Lemma written_clips_tail (c : Clip) (audio : AudioClip) (b : bool) :
  written_clips (if b then [CloseClip c; CloseAudio audio] else []) = [].
Proof. destruct b; reflexivity. Qed.

Lemma written_clips_opens (opens : list Event) :
  forallb is_open opens = true -> written_clips opens = [].
Proof.
  induction opens as [|e opens IH]; [reflexivity|].
  cbn. destruct e; cbn; try discriminate. exact IH.
Qed.

(** When the encoder completes the job, the branch returns the output
    path with the audio's duration, and what it added to the trace is
    what it opened, the call of the encoder and the two [close] calls. *)
Lemma encode_and_close_trace (w w0 : World) (opens : list Event) (c : Clip)
    (audio : AudioClip) (out : str) (fps : option Q) (d f : Q) :
  log w0 = log w ++ opens ->
  clip_duration c = Some d ->
  (match fps with Some f => Some f | None => clip_fps c end) = Some f ->
  encoder w0 (job_of c out fps) = true ->
  let r := encode_and_close c audio out fps w0 in
  r.2 = Returned (out, a_duration audio)
  /\ new_events w r.1 = opens ++ [Write (job_of c out fps); CloseClip c; CloseAudio audio].
Proof.
  intros Hlog Hd Hf He r. subst r. split.
  - exact (proj1 (encode_and_close_ok c audio out fps w0 d f Hd Hf He)).
  - erewrite (encode_and_close_events w w0 opens) by eassumption. rewrite He. reflexivity.
Qed.

(* ===================================================================== *)
(** * Durations and frames of the tracks *)
(* ===================================================================== *)

Lemma subclip_duration (c : Clip) (d : Q) (a : AudioClip) :
  exists x, clip_duration (set_audio (subclip c 0 d) a) = Some x /\ (x == d)%Q.
Proof. exists (d - 0)%Q. split; [reflexivity | lra]. Qed.

(** [k] copies of a clip of duration [vd] last [k * vd]. *)
Lemma concatenated_duration (video : Clip) (vd : Q) (k : nat) :
  clip_duration video = Some vd ->
  exists x, clip_duration (Concatenated (replicate k video)) = Some x
            /\ (x == inject_Z (Z.of_nat k) * vd)%Q.
Proof.
  intros Hv. induction k as [|k [x [Hx Hxe]]].
  - exists 0%Q. split; [reflexivity|].
    change (inject_Z (Z.of_nat 0)) with 0%Q. lra.
  - exists (vd + x)%Q. split.
    + change (clip_duration (Concatenated (replicate (S k) video)))
        with (match clip_duration video, clip_duration (Concatenated (replicate k video)) with
              | Some a, Some b => Some (a + b)%Q
              | _, _ => None
              end).
      rewrite Hv, Hx. reflexivity.
    + rewrite Nat2Z.inj_succ. unfold Z.succ. rewrite inject_Z_plus.
      change (inject_Z 1) with 1%Q. rewrite Hxe. ring.
Qed.

(** Copies of one video file keep its frame rate. *)
Lemma concatenated_fps (path : str) (info : VideoInfo) (k : nat) :
  clip_fps (Concatenated (replicate (S k) (VideoFile path info))) = Some (v_fps info).
Proof.
  induction k as [|k IH]; [reflexivity|].
  change (clip_fps (Concatenated (replicate (S (S k)) (VideoFile path info))))
    with (Qmax_opt (Some (v_fps info))
            (clip_fps (Concatenated (replicate (S k) (VideoFile path info))))).
  rewrite IH. cbn. destruct (Qlt_le_dec _ _); reflexivity.
Qed.

(** Playing [k] copies of a video file: at an instant [t] inside the
    concatenation the picture is the source's picture at [t] minus a whole
    number [i < k] of source durations. *)
Lemma concatenated_frame (path : str) (info : VideoInfo) (k : nat) (t : Q) :
  (0 < v_duration info)%Q ->
  (0 <= t)%Q ->
  (t < inject_Z (Z.of_nat k) * v_duration info)%Q ->
  exists (i : nat) (s : Q),
    get_frame (Concatenated (replicate k (VideoFile path info))) t
    = Some (VideoFrame path s)
    /\ (i < k)%nat
    /\ (s == t - inject_Z (Z.of_nat i) * v_duration info)%Q
    /\ (0 <= s)%Q /\ (s < v_duration info)%Q.
Proof.
  intros Hvd. revert t. induction k as [|k IH]; intros t Ht0 Ht.
  - change (inject_Z (Z.of_nat 0)) with 0%Q in Ht. lra.
  - cbn [replicate get_frame clip_duration].
    destruct (Qlt_le_dec t (v_duration info)) as [Hlt|Hge].
    + exists 0%nat, t. change (inject_Z (Z.of_nat 0)) with 0%Q.
      repeat split; [lia | lra | lra | lra].
    + rewrite Nat2Z.inj_succ in Ht. unfold Z.succ in Ht. rewrite inject_Z_plus in Ht.
      change (inject_Z 1) with 1%Q in Ht.
      destruct (IH (t - v_duration info)%Q) as (i & s & Hs & Hi & Heq & Hs0 & Hs1); [lra | lra |].
      exists (S i), s. repeat split; [exact Hs | lia | | lra | lra].
      rewrite Nat2Z.inj_succ. unfold Z.succ. rewrite inject_Z_plus.
      change (inject_Z 1) with 1%Q. rewrite Heq. ring.
Qed.

Lemma looped_track_fps (path : str) (info : VideoInfo) (d : Q) (a : AudioClip) :
  (0 <= d)%Q ->
  (0 < v_duration info)%Q ->
  clip_fps (set_audio (looped_track (VideoFile path info) d (v_duration info)) a)
  = Some (v_fps info).
Proof.
  intros Hd Hvd. pose proof (repeat_count_pos d (v_duration info) Hd Hvd) as Hn.
  unfold looped_track. cbn [set_audio subclip clip_fps].
  destruct (Z.to_nat (repeat_count d (v_duration info))) as [|k] eqn:Ek; [lia|].
  apply concatenated_fps.
Qed.

(* ===================================================================== *)
(** * The composer: a supplied video *)
(* ===================================================================== *)

(** C3.  When the supplied video lasts at least as long as the audio
    (of duration [d > 0]), the clip handed to the encoder is the opened
    video trimmed with [subclip(0, d)] and given the audio: no
    concatenation is made, the track lasts [d], and at every instant [t]
    it shows the source video at its own time [t]. *)
Theorem long_video_is_trimmed (w : World) (audio_path video_path : str)
    (image_path : option str) (out_path : str) (d : Q) (info : VideoInfo) :
  files w !! audio_path = Some (AudioData d) ->
  truthy_str video_path = true ->
  files w !! video_path = Some (VideoData info) ->
  (0 < d)%Q ->
  (d <= v_duration info)%Q ->
  let r := create_video_with_voiceover audio_path (Some video_path) image_path out_path w in
  let audio := {| a_path := audio_path; a_duration := d |} in
  let track := subclip (VideoFile video_path info) 0 d in
  written_clips (new_events w r.1) = [set_audio track audio]
  /\ uses_concatenation (set_audio track audio) = false
  /\ (exists x, clip_duration (set_audio track audio) = Some x /\ (x == d)%Q)
  /\ (forall t, exists s,
        get_frame (set_audio track audio) t = Some (VideoFrame video_path s) /\ (s == t)%Q).
Proof.
  intros Ha Hv Hf Hd Hle r audio track.
  split; [|split; [reflexivity|split]].
  - subst r. rewrite (compose_long_video w audio_path out_path d Ha video_path image_path info Hv Hf Hle).
    erewrite (encode_and_close_events w _ [Open (AudioHandle audio_path); Open
        (VideoHandle video_path)]);
      [| cbn; rewrite <- app_assoc; reflexivity | reflexivity | reflexivity ].
    rewrite written_clips_app. cbn. rewrite written_clips_tail. reflexivity.
  - apply subclip_duration.
  - intros t. exists (t + 0)%Q. split; [reflexivity | lra].
Qed.

(** A run of the composer on a ten-second video and a four-second audio. *)
Lemma long_video_is_trimmed_witness :
  let r := create_video_with_voiceover (lit "voice.mp3") (Some (lit "clip.mp4")) None
             (lit "out.mp4") demo_world in
  let audio := {| a_path := lit "voice.mp3"; a_duration := 4 |} in
  let track := subclip (VideoFile (lit "clip.mp4") demo_video) 0 4 in
  written_clips (new_events demo_world r.1) = [set_audio track audio]
  /\ uses_concatenation (set_audio track audio) = false
  /\ (exists x, clip_duration (set_audio track audio) = Some x /\ (x == 4)%Q)
  /\ (forall t, exists s,
        get_frame (set_audio track audio) t = Some (VideoFrame (lit "clip.mp4") s) /\ (s == t)%Q).
Proof.
  apply (long_video_is_trimmed demo_world (lit "voice.mp3") (lit "clip.mp4") None
           (lit "out.mp4") 4 demo_video);
    [ reflexivity | reflexivity | reflexivity | reflexivity | discriminate ].
Defined.

(** C1.  When the supplied video (of duration [vd > 0]) is shorter than
    the audio (of duration [d > 0]), the composer makes
    [n = floor(d / vd) + 1] copies of the opened clip, concatenates them
    and trims the result with [subclip(0, d)]: the clip handed to the
    encoder is that track with the audio.  The concatenation lasts
    [n * vd], which is more than [d] while one copy less would not exceed
    [d]; the trimmed track lasts [d]; and at every instant of it the
    picture is the source's picture at that instant minus a whole number of
    source durations. *)
Theorem short_video_is_looped_then_trimmed (w : World) (audio_path video_path : str)
    (image_path : option str) (out_path : str) (d : Q) (info : VideoInfo) :
  files w !! audio_path = Some (AudioData d) ->
  truthy_str video_path = true ->
  files w !! video_path = Some (VideoData info) ->
  (0 < d)%Q ->
  (0 < v_duration info)%Q ->
  (v_duration info < d)%Q ->
  let vd := v_duration info in
  let r := create_video_with_voiceover audio_path (Some video_path) image_path out_path w in
  let audio := {| a_path := audio_path; a_duration := d |} in
  let video := VideoFile video_path info in
  let n := Qfloor (d / vd) + 1 in
  let looped := Concatenated (replicate (Z.to_nat n) video) in
  let track := subclip looped 0 d in
  written_clips (new_events w r.1) = [set_audio track audio]
  /\ 1 <= n
  /\ (exists x, clip_duration looped = Some x
                /\ (x == inject_Z n * vd)%Q /\ (d < x)%Q /\ (x - vd <= d)%Q)
  /\ (exists x, clip_duration (set_audio track audio) = Some x /\ (x == d)%Q)
  /\ (forall t, (0 <= t)%Q -> (t < d)%Q ->
        exists (i : nat) (s : Q),
          get_frame (set_audio track audio) t = Some (VideoFrame video_path s)
          /\ (s == t - inject_Z (Z.of_nat i) * vd)%Q /\ (0 <= s)%Q /\ (s < vd)%Q).
Proof.
  intros Ha Hv Hf Hd Hvd Hlt vd r audio video n looped track.
  assert (Hn : 1 <= n) by (apply (repeat_count_pos d vd); [lra | exact Hvd]).
  destruct (repeat_count_bounds d vd Hvd) as [Hcover Htight].
  fold n in Hcover, Htight. change (repeat_count d vd) with n in *.
  assert (Hk : inject_Z (Z.of_nat (Z.to_nat n)) = inject_Z n) by (rewrite Z2Nat.id;
      [reflexivity | lia]).
  split; [|split; [exact Hn|split; [|split]]].
  - subst r.
    rewrite (compose_short_video w audio_path out_path d Ha video_path image_path info Hv Hf Hvd Hlt).
    erewrite (encode_and_close_events w _ [Open (AudioHandle audio_path); Open
        (VideoHandle video_path)]);
      [| cbn; rewrite <- app_assoc; reflexivity | reflexivity | apply looped_track_fps;
          [lra | assumption] ].
    rewrite written_clips_app. cbn. rewrite written_clips_tail. reflexivity.
  - destruct (concatenated_duration video vd (Z.to_nat n) eq_refl) as (x & Hx & Hxe).
    rewrite Hk in Hxe. exists x. split; [exact Hx|]. split; [exact Hxe|]. rewrite Hxe. split; lra.
  - apply subclip_duration.
  - intros t Ht0 Ht.
    destruct (concatenated_frame video_path info (Z.to_nat n) (t + 0)%Q Hvd) as
        (i & s & Hs & _ & Heq & Hs0 & Hs1);
      [lra | rewrite Hk; fold vd; lra |].
    exists i, s. split; [exact Hs|]. split; [rewrite Heq; fold vd; ring | split; assumption].
Qed.

(** A run of the composer on a clip of a second and a half and a
    four-second audio: three copies are made. *)
Lemma short_video_is_looped_then_trimmed_witness :
  let vd := (3 # 2)%Q in
  let d := 4%Q in
  let r := create_video_with_voiceover (lit "voice.mp3") (Some (lit "intro.mp4")) None
             (lit "out.mp4") demo_world in
  let audio := {| a_path := lit "voice.mp3"; a_duration := d |} in
  let video := VideoFile (lit "intro.mp4") demo_short_video in
  let looped := Concatenated (replicate 3 video) in
  let track := subclip looped 0 d in
  written_clips (new_events demo_world r.1) = [set_audio track audio]
  /\ 1 <= 3
  /\ (exists x, clip_duration looped = Some x
                /\ (x == inject_Z 3 * vd)%Q /\ (d < x)%Q /\ (x - vd <= d)%Q)
  /\ (exists x, clip_duration (set_audio track audio) = Some x /\ (x == d)%Q)
  /\ (forall t, (0 <= t)%Q -> (t < d)%Q ->
        exists (i : nat) (s : Q),
          get_frame (set_audio track audio) t = Some (VideoFrame (lit "intro.mp4") s)
          /\ (s == t - inject_Z (Z.of_nat i) * vd)%Q /\ (0 <= s)%Q /\ (s < vd)%Q).
Proof.
  apply (short_video_is_looped_then_trimmed demo_world (lit "voice.mp3") (lit "intro.mp4") None
           (lit "out.mp4") 4 demo_short_video);
    reflexivity.
Defined.

(* ===================================================================== *)
(** * The composer: no supplied visual *)
(* ===================================================================== *)

(** C5.  With an audio of duration [d > 0] and neither a video nor an
    image, the composer makes a solid black 1280x720 RGB picture, opens it
    as an image clip, holds it for [d] and hands it to the encoder with
    [fps=24]: the track handed over is 1280x720, lasts exactly [d], shows
    that picture at every instant and carries the audio; when the encoder
    completes, the composer returns the output path with [d]. *)
Theorem no_visual_gives_black_frame (w : World) (audio_path : str)
    (video_path image_path : option str) (out_path : str) (d : Q) :
  files w !! audio_path = Some (AudioData d) ->
  (0 < d)%Q ->
  truthy video_path = false ->
  truthy image_path = false ->
  let r := create_video_with_voiceover audio_path video_path image_path out_path w in
  let audio := {| a_path := audio_path; a_duration := d |} in
  let tmp := tmp_names w (tmp_next w) ++ lit ".png" in
  let picture :=
    ImageFile tmp {| im_mode := lit "RGB"; im_size := (1280, 720);
                     im_pixels := Solid (0, 0, 0) |} in
  let track := set_audio (Resized (set_duration picture d) 720) audio in
  let job := {| job_clip := track; job_out := out_path; job_fps := Some 24%Q;
                job_codec := lit "libx264"; job_audio_codec := lit "aac" |} in
  (exists closes,
      new_events w r.1
      = Open (AudioHandle audio_path) :: Open (ImageHandle tmp) :: Write job :: closes)
  /\ clip_size track = (1280, 720)
  /\ clip_duration track = Some d
  /\ (forall t, get_frame track t = Some (StillFrame tmp))
  /\ clip_audio track = Some audio
  /\ (encoder w job = true -> r.2 = Returned (out_path, d)).
Proof.
  intros Ha Hd Hv Hi r audio tmp picture track job.
  pose proof (compose_placeholder w audio_path out_path d Ha video_path image_path Hv Hi) as Hrun.
  cbn zeta in Hrun. fold tmp in Hrun.
  split; [|split; [reflexivity|split; [reflexivity|split; [reflexivity|split; [reflexivity|]]]]].
  - subst r. rewrite Hrun.
    erewrite (encode_and_close_events w _ [Open (AudioHandle audio_path); Open (ImageHandle tmp)]);
      [| cbn; rewrite <- app_assoc; reflexivity | reflexivity | reflexivity ].
    eexists. reflexivity.
  - intros He. subst r. rewrite Hrun.
    exact (proj1 (encode_and_close_ok track audio out_path (Some 24%Q)
                    (log_event (Open (ImageHandle tmp))
                       (write_file tmp (ImageData black_frame)
                          (bump_tmp (log_event (Open (AudioHandle audio_path)) w))))
                    d 24%Q eq_refl eq_refl He)).
Qed.

(** A run of the composer on the four-second audio alone. *)
Lemma no_visual_gives_black_frame_witness :
  let r := create_video_with_voiceover (lit "voice.mp3") None None (lit "out.mp4") demo_world in
  let audio := {| a_path := lit "voice.mp3"; a_duration := 4 |} in
  let tmp := lit "/tmp/tmp0.png" in
  let picture :=
    ImageFile tmp {| im_mode := lit "RGB"; im_size := (1280, 720);
                     im_pixels := Solid (0, 0, 0) |} in
  let track := set_audio (Resized (set_duration picture 4) 720) audio in
  let job := {| job_clip := track; job_out := lit "out.mp4"; job_fps := Some 24%Q;
                job_codec := lit "libx264"; job_audio_codec := lit "aac" |} in
  (exists closes,
      new_events demo_world r.1
      = Open (AudioHandle (lit "voice.mp3")) :: Open (ImageHandle tmp) :: Write job :: closes)
  /\ clip_size track = (1280, 720)
  /\ clip_duration track = Some 4%Q
  /\ (forall t, get_frame track t = Some (StillFrame tmp))
  /\ clip_audio track = Some audio
  /\ r.2 = Returned (lit "out.mp4", 4%Q).
Proof.
  destruct (no_visual_gives_black_frame demo_world (lit "voice.mp3") None None (lit "out.mp4") 4)
    as (Htrace & Hsize & Hdur & Hframe & Haudio & Hret); [reflexivity ..|].
  split; [exact Htrace|]. split; [exact Hsize|]. split; [exact Hdur|].
  split; [exact Hframe|]. split; [exact Haudio|]. apply Hret. reflexivity.
Defined.

(* ===================================================================== *)
(** * The composer: duration of the output *)
(* ===================================================================== *)



(* ===================================================================== *)
(** * The composer: size of the visual track *)
(* ===================================================================== *)

(** Rounding the width down keeps the aspect ratio within one pixel. *)
Lemma resize_keeps_aspect (pw ph height : Z) :
  0 < ph ->
  let nw := pw * height / ph in
  nw * ph <= pw * height < (nw + 1) * ph.
Proof.
  intros Hph nw. subst nw.
  pose proof (Z.mul_div_le (pw * height) ph Hph).
  pose proof (Z.mul_succ_div_gt (pw * height) ph Hph).
  lia.
Qed.

Lemma looped_track_size (video : Clip) (d vd : Q) (k : nat) (a : AudioClip) :
  Z.to_nat (repeat_count d vd) = S k ->
  clip_size (set_audio (looped_track video d vd) a) = clip_size video.
Proof. intros Hk. unfold looped_track. rewrite Hk. reflexivity. Qed.

(** Against C6 as stated: a 1920x1080 video reaches the encoder 1080
    units high; the video branch does not resize. *)
Lemma video_track_keeps_native_height :
  ~ height_normalised
      (new_events demo_world
         (create_video_with_voiceover (lit "voice.mp3") (Some (lit "clip.mp4")) None
            (lit "out.mp4") demo_world).1).
Proof.
  rewrite (compose_long_video demo_world (lit "voice.mp3") (lit "out.mp4") 4 eq_refl
             (lit "clip.mp4") None demo_video eq_refl eq_refl ltac:(discriminate)).
  erewrite (encode_and_close_events demo_world _
              [Open (AudioHandle (lit "voice.mp3")); Open (VideoHandle (lit "clip.mp4"))]);
    [| reflexivity | reflexivity | reflexivity ].
  unfold height_normalised. rewrite written_clips_app. cbn.
  intros H. apply Forall_cons in H as [H _]. discriminate H.
Qed.

(** C6 (amended).  When the visual source can be used, exactly one clip
    is handed to the encoder.  For a supplied image or the generated
    placeholder it is the picture held for the audio's duration, resized to
    height 720 and only then given the audio; its width is the picture's
    width scaled by 720 over the picture's height, rounded down, so the
    aspect ratio is kept.  For a supplied video the clip has the size of
    the video file: no resize is made. *)
Theorem still_pictures_are_resized_videos_are_not (w : World) (audio_path : str)
    (video_path image_path : option str) (out_path : str) (d : Q) :
  files w !! audio_path = Some (AudioData d) ->
  usable_visual w video_path image_path ->
  let r := create_video_with_voiceover audio_path video_path image_path out_path w in
  let audio := {| a_path := audio_path; a_duration := d |} in
  if truthy video_path then
    exists info track,
      files w !! default [] video_path = Some (VideoData info)
      /\ written_clips (new_events w r.1) = [set_audio track audio]
      /\ clip_size (set_audio track audio) = v_size info
  else
    exists picture,
      let track := Resized (set_duration picture d) 720 in
      let '(pw, ph) := clip_size picture in
      written_clips (new_events w r.1) = [set_audio track audio]
      /\ clip_size (set_audio track audio) = (pw * 720 / ph, 720)
      /\ (0 < ph -> (pw * 720 / ph) * ph <= pw * 720 < (pw * 720 / ph + 1) * ph).
Proof.
  intros Ha Hvis r audio. subst r. unfold usable_visual in Hvis.
  destruct (truthy video_path) eqn:Hv.
  - destruct video_path as [v|]; [|discriminate Hv].
    destruct Hvis as (info & Hf & Hvd). cbn in Hf, Hv. exists info.
    destruct (Qlt_le_dec (v_duration info) d) as [Hlt|Hle].
    + exists (looped_track (VideoFile v info) d (v_duration info)).
      split; [exact Hf|]. split.
      * rewrite (compose_short_video w audio_path out_path d Ha v image_path info Hv Hf Hvd Hlt).
        erewrite (encode_and_close_events w _ [Open (AudioHandle audio_path); Open
            (VideoHandle v)]);
          [| cbn; rewrite <- app_assoc; reflexivity | reflexivity
           | apply looped_track_fps; [lra | exact Hvd] ].
        rewrite written_clips_app. cbn. rewrite written_clips_tail. reflexivity.
      * pose proof (repeat_count_pos d (v_duration info) ltac:(lra) Hvd) as Hn.
        destruct (Z.to_nat (repeat_count d (v_duration info))) as [|k] eqn:Ek; [lia|].
        exact (looped_track_size (VideoFile v info) d (v_duration info) k audio Ek).
    + exists (subclip (VideoFile v info) 0 d).
      split; [exact Hf|]. split; [|reflexivity].
      rewrite (compose_long_video w audio_path out_path d Ha v image_path info Hv Hf Hle).
      erewrite (encode_and_close_events w _ [Open (AudioHandle audio_path); Open (VideoHandle v)]);
        [| cbn; rewrite <- app_assoc; reflexivity | reflexivity | reflexivity ].
      rewrite written_clips_app. cbn. rewrite written_clips_tail. reflexivity.
  - destruct (truthy image_path) eqn:Hi.
    + destruct image_path as [i|]; [|discriminate Hi].
      destruct Hvis as (img & Hf & Hh). cbn in Hf, Hi.
      pose proof (compose_image w audio_path out_path d Ha video_path i img Hv Hi Hf Hh) as Hrun.
      exists (ImageFile i img). cbn [clip_size]. destruct (im_size img) as [pw ph] eqn:Esz.
      split; [|split].
      * rewrite Hrun.
        erewrite (encode_and_close_events w _ [Open (AudioHandle audio_path); Open
            (ImageHandle i)]);
          [| cbn; rewrite <- app_assoc; reflexivity | reflexivity | reflexivity ].
        rewrite written_clips_app. cbn. rewrite written_clips_tail. reflexivity.
      * cbn. rewrite Esz. reflexivity.
      * intros Hph. apply resize_keeps_aspect. exact Hph.
    + pose proof (compose_placeholder w audio_path out_path d Ha video_path image_path Hv Hi)
        as Hrun.
      cbn zeta in Hrun.
      exists (ImageFile (tmp_names w (tmp_next w) ++ lit ".png") black_frame).
      cbn [clip_size black_frame im_size].
      split; [|split].
      * rewrite Hrun.
        erewrite (encode_and_close_events w _
                    [Open (AudioHandle audio_path);
                     Open (ImageHandle (tmp_names w (tmp_next w) ++ lit ".png"))]);
          [| cbn; rewrite <- app_assoc; reflexivity | reflexivity | reflexivity ].
        rewrite written_clips_app. cbn. rewrite written_clips_tail. reflexivity.
      * reflexivity.
      * intros Hph. apply resize_keeps_aspect. exact Hph.
Qed.

(** The 4000x3000 photograph reaches the encoder as 960x720. *)
Lemma still_pictures_are_resized_videos_are_not_witness :
  let r := create_video_with_voiceover (lit "voice.mp3") None (Some (lit "photo.png"))
             (lit "out.mp4") demo_world in
  let audio := {| a_path := lit "voice.mp3"; a_duration := 4 |} in
  exists picture,
    let track := Resized (set_duration picture 4) 720 in
    let '(pw, ph) := clip_size picture in
    written_clips (new_events demo_world r.1) = [set_audio track audio]
    /\ clip_size (set_audio track audio) = (pw * 720 / ph, 720)
    /\ (0 < ph -> (pw * 720 / ph) * ph <= pw * 720 < (pw * 720 / ph + 1) * ph).
Proof.
  apply (still_pictures_are_resized_videos_are_not demo_world (lit "voice.mp3") None
           (Some (lit "photo.png")) (lit "out.mp4") 4).
  - reflexivity.
  - exists demo_photo. split; [reflexivity | discriminate].
Defined.


(* ===================================================================== *)
(** * Every run of the composer *)
(* ===================================================================== *)

Lemma looped_track_fps_gen (path : str) (info : VideoInfo) (d : Q) (a : AudioClip) (k : nat) :
  Z.to_nat (repeat_count d (v_duration info)) = S k ->
  clip_fps (set_audio (looped_track (VideoFile path info) d (v_duration info)) a)
  = Some (v_fps info).
Proof.
  intros Hk. unfold looped_track. cbn [set_audio subclip clip_fps]. rewrite Hk.
  apply concatenated_fps.
Qed.

Ltac stopped_with evs :=
  eapply (Stopped _ _ _ _ _ _ _ evs);
  [ cbn; rewrite <- ?app_assoc, ?app_nil_r; reflexivity | reflexivity
  | try reflexivity; try congruence ].

(** The composer either stops before the encoder is called or reaches
    its last steps. *)
Lemma compose_run (w : World) (audio_path : str) (video_path image_path : option str)
    (out_path : str) :
  ComposerRun w audio_path video_path image_path out_path
    (create_video_with_voiceover audio_path video_path image_path out_path w).
Proof.
  destruct (files w !! audio_path) as [fc|] eqn:Ha.
  2: { rewrite compose_audio_unreadable by (intros d; congruence). stopped_with (@nil Event). }
  destruct fc as [d| | |].
  2-4: rewrite compose_audio_unreadable by (intros d; congruence); stopped_with (@nil Event).
  set (audio := {| a_path := audio_path; a_duration := d |}).
  destruct (truthy video_path) eqn:Hv.
  - destruct video_path as [v|]; [|discriminate Hv]. cbn in Hv.
    destruct (files w !! v) as [fc|] eqn:Hf.
    2: { rewrite (compose_video_unreadable w audio_path out_path d Ha) by
        (try assumption; intros info; congruence).
         stopped_with [Open (AudioHandle audio_path)]. }
    destruct fc as [| info | |].
    1,3,4: rewrite (compose_video_unreadable w audio_path out_path d Ha)
             by (try assumption; intros info; congruence);
           stopped_with [Open (AudioHandle audio_path)].
    destruct (Qlt_le_dec (v_duration info) d) as [Hlt|Hle].
    + destruct (Qeq_bool (v_duration info) 0) eqn:Hz.
      { rewrite (compose_video_zero_duration w audio_path out_path d Ha v image_path info Hv Hf Hlt Hz).
        stopped_with [Open (AudioHandle audio_path); Open (VideoHandle v)]. }
      destruct (Z.to_nat (repeat_count d (v_duration info))) as [|k] eqn:Hk.
      { rewrite (compose_video_no_copy w audio_path out_path d Ha v image_path info Hv Hf Hlt Hz Hk).
        stopped_with [Open (AudioHandle audio_path); Open (VideoHandle v)]. }
      rewrite (compose_short_video_gen w audio_path out_path d Ha v image_path info k Hv Hf Hlt Hz Hk).
      eapply (Encoding _ _ _ _ _ d (d - 0)%Q (v_fps info) _ None _
                [Open (AudioHandle audio_path); Open (VideoHandle v)]).
      * exact Ha.
      * unfold readable_visual. cbn. rewrite Hv. eauto.
      * cbn. rewrite <- app_assoc. reflexivity.
      * reflexivity.
      * reflexivity.
      * unfold looped_track. rewrite Hk. cbn. repeat constructor; set_solver.
      * reflexivity.
      * intros p Hp. exact Hp.
      * reflexivity.
      * lra.
      * apply (looped_track_fps_gen v info d _ k Hk).
    + rewrite (compose_long_video w audio_path out_path d Ha v image_path info Hv Hf Hle).
      eapply (Encoding _ _ _ _ _ d (d - 0)%Q (v_fps info) _ None _
                [Open (AudioHandle audio_path); Open (VideoHandle v)]).
      * exact Ha.
      * unfold readable_visual. cbn. rewrite Hv. eauto.
      * cbn. rewrite <- app_assoc. reflexivity.
      * reflexivity.
      * reflexivity.
      * cbn. repeat constructor; set_solver.
      * reflexivity.
      * intros p Hp. exact Hp.
      * reflexivity.
      * lra.
      * reflexivity.
  - destruct (truthy image_path) eqn:Hi.
    + destruct image_path as [i|]; [|discriminate Hi]. cbn in Hi.
      destruct (files w !! i) as [fc|] eqn:Hf.
      2: { rewrite (compose_image_unreadable w audio_path out_path d Ha)
             by (try assumption; intros img; congruence).
           stopped_with [Open (AudioHandle audio_path)]. }
      destruct fc as [| | img |].
      1,2,4: rewrite (compose_image_unreadable w audio_path out_path d Ha)
               by (try assumption; intros img; congruence);
             stopped_with [Open (AudioHandle audio_path)].
      destruct (Z.eq_dec (im_size img).2 0) as [Hflat|Hh].
      { rewrite (compose_image_flat w audio_path out_path d Ha video_path i img Hv Hi Hf Hflat).
        stopped_with [Open (AudioHandle audio_path); Open (ImageHandle i)]. }
      rewrite (compose_image w audio_path out_path d Ha video_path i img Hv Hi Hf Hh).
      eapply (Encoding _ _ _ _ _ d d 24%Q _ (Some 24%Q) _
                [Open (AudioHandle audio_path); Open (ImageHandle i)]).
      * exact Ha.
      * unfold readable_visual. rewrite Hv. cbn. rewrite Hi. eauto.
      * cbn. rewrite <- app_assoc. reflexivity.
      * reflexivity.
      * congruence.
      * cbn. repeat constructor; set_solver.
      * reflexivity.
      * intros p Hp. exact Hp.
      * reflexivity.
      * reflexivity.
      * reflexivity.
    + pose proof (compose_placeholder w audio_path out_path d Ha video_path image_path Hv Hi)
        as Hrun.
      cbn zeta in Hrun. rewrite Hrun.
      eapply (Encoding _ _ _ _ _ d d 24%Q _ (Some 24%Q) _
                [Open (AudioHandle audio_path);
                 Open (ImageHandle (tmp_names w (tmp_next w) ++ lit ".png"))]).
      * exact Ha.
      * unfold readable_visual. rewrite Hv, Hi. exact I.
      * cbn. rewrite <- app_assoc. reflexivity.
      * reflexivity.
      * congruence.
      * cbn. repeat constructor; set_solver.
      * reflexivity.
      * intros p Hp. cbn. rewrite lookup_insert_is_Some.
        destruct (decide (tmp_names w (tmp_next w) ++ lit ".png" = p)); [left | right]; auto.
      * reflexivity.
      * reflexivity.
      * reflexivity.
Qed.

(** What the last steps add to the trace opens nothing. *)
Lemma opened_encode_events (opens : list Event) (job : EncodeJob) (c : Clip)
    (a : AudioClip) (b : bool) :
  opened (opens ++ Write job :: (if b then [CloseClip c; CloseAudio a] else []))
  = opened opens.
Proof.
  unfold opened. rewrite omap_app. destruct b; cbn; apply app_nil_r.
Qed.

(** Whatever the outcome, the trace of a run is made of the files opened,
    then possibly the call of the encoder and the two [close] calls. *)
Lemma compose_opened (w : World) (audio_path : str) (video_path image_path : option str)
    (out_path : str) :
  let r := create_video_with_voiceover audio_path video_path image_path out_path w in
  truthy video_path = true ->
  existsb is_image_handle (opened (new_events w r.1)) = false.
Proof.
  intros r Hv. subst r.
  destruct (compose_run w audio_path video_path image_path out_path)
    as [w' e opens Hlog Hopen Himg
       | d x f c fps w0 opens Ha Hread Hlog Hopen Himg Hcov Henc Hkept Hdur Hx Hfps].
  - cbn. rewrite (new_events_app w w' opens Hlog). apply Himg. exact Hv.
  - erewrite (encode_and_close_events w w0 opens) by eassumption.
    rewrite opened_encode_events. apply Himg. exact Hv.
Qed.

(* ===================================================================== *)
(** * The composer: video before image *)
(* ===================================================================== *)

(** Against C10 as stated: with an empty video path (not [None]) and an
    image path, the image is opened and used, and the run differs from
    the one without an image path. *)
Lemma empty_video_path_yields_to_image :
  let r := create_video_with_voiceover (lit "voice.mp3") (Some []) (Some (lit "photo.png"))
             (lit "out.mp4") demo_world in
  opened (new_events demo_world r.1)
  = [AudioHandle (lit "voice.mp3"); ImageHandle (lit "photo.png")]
  /\ r <> create_video_with_voiceover (lit "voice.mp3") (Some []) None (lit "out.mp4") demo_world.
Proof.
  cbn zeta.
  rewrite (compose_image demo_world (lit "voice.mp3") (lit "out.mp4") 4 eq_refl
             (Some []) (lit "photo.png") demo_photo eq_refl eq_refl eq_refl ltac:(discriminate)).
  pose proof (compose_placeholder demo_world (lit "voice.mp3") (lit "out.mp4") 4 eq_refl
                (Some []) None eq_refl eq_refl) as Hnone.
  cbn zeta in Hnone. rewrite Hnone. clear Hnone.
  split.
  - erewrite (encode_and_close_events demo_world _
                [Open (AudioHandle (lit "voice.mp3")); Open (ImageHandle (lit "photo.png"))]);
      reflexivity.
  - intros H. apply (f_equal (fun r => opened (log r.1))) in H.
    erewrite !encode_and_close_run in H by reflexivity.
    vm_compute in H. discriminate H.
Qed.

(** C10 (amended).  When the video path is a non-empty string, the
    output is made from the video, whatever the image path is.  The
    composer behaves exactly as if no image path had been given, and it
    opens no image file.  Once the audio is read, the next thing it does
    is open the video, and it stops there, with the error for the video
    path, if that file cannot be read as a video.  A video that can be
    read and has a length is the only file opened besides the audio, and
    the one clip handed to the encoder, for the output path, is cut from
    it (looped first when it is shorter than the audio) and carries the
    audio. *)
Theorem video_path_takes_precedence (w : World) (audio_path video_path : str)
    (image_path : option str) (out_path : str) :
  truthy_str video_path = true ->
  let r := create_video_with_voiceover audio_path (Some video_path) image_path out_path w in
  r = create_video_with_voiceover audio_path (Some video_path) None out_path w
  /\ existsb is_image_handle (opened (new_events w r.1)) = false
  /\ (forall d,
        files w !! audio_path = Some (AudioData d) ->
        (forall info, files w !! video_path <> Some (VideoData info)) ->
        r = (log_event (Open (AudioHandle audio_path)) w, Raised (IOError video_path)))
  /\ (forall d info,
        files w !! audio_path = Some (AudioData d) ->
        files w !! video_path = Some (VideoData info) ->
        (0 < d)%Q ->
        (0 < v_duration info)%Q ->
        let audio := {| a_path := audio_path; a_duration := d |} in
        let video := VideoFile video_path info in
        let track :=
          if Qlt_le_dec (v_duration info) d
          then looped_track video d (v_duration info)
          else subclip video 0 d in
        let job := job_of (set_audio track audio) out_path None in
        new_events w r.1
        = Open (AudioHandle audio_path) :: Open (VideoHandle video_path) :: Write job
            :: (if encoder w job
                then [CloseClip (set_audio track audio); CloseAudio audio] else [])).
Proof.
  intros Hv r. split; [|split; [|split]].
  - subst r. unfold create_video_with_voiceover. cbn [truthy]. rewrite Hv. reflexivity.
  - apply compose_opened. exact Hv.
  - intros d Ha Hf. subst r.
    exact (compose_video_unreadable w audio_path out_path d Ha video_path image_path Hv Hf).
  - intros d info Ha Hf Hd Hvd audio video track job. subst r job track.
    destruct (Qlt_le_dec (v_duration info) d) as [Hlt|Hle].
    + rewrite (compose_short_video w audio_path out_path d Ha video_path image_path info
                 Hv Hf Hvd Hlt).
      erewrite (encode_and_close_events w _
                  [Open (AudioHandle audio_path); Open (VideoHandle video_path)]);
        [ reflexivity | cbn; rewrite <- app_assoc; reflexivity | reflexivity
        | apply looped_track_fps; [lra | exact Hvd] ].
    + rewrite (compose_long_video w audio_path out_path d Ha video_path image_path info
                 Hv Hf Hle).
      erewrite (encode_and_close_events w _
                  [Open (AudioHandle audio_path); Open (VideoHandle video_path)]);
        [ reflexivity | cbn; rewrite <- app_assoc; reflexivity | reflexivity | reflexivity ].
Qed.

(** The ten-second video wins over the photograph: the first four
    seconds of the video are what is encoded. *)
Lemma video_path_takes_precedence_witness :
  let r := create_video_with_voiceover (lit "voice.mp3") (Some (lit "clip.mp4"))
             (Some (lit "photo.png")) (lit "out.mp4") demo_world in
  let audio := {| a_path := lit "voice.mp3"; a_duration := 4 |} in
  let track := set_audio (subclip (VideoFile (lit "clip.mp4") demo_video) 0 4) audio in
  r = create_video_with_voiceover (lit "voice.mp3") (Some (lit "clip.mp4")) None
        (lit "out.mp4") demo_world
  /\ existsb is_image_handle (opened (new_events demo_world r.1)) = false
  /\ new_events demo_world r.1
     = [Open (AudioHandle (lit "voice.mp3")); Open (VideoHandle (lit "clip.mp4"));
        Write (job_of track (lit "out.mp4") None); CloseClip track; CloseAudio audio].
Proof.
  destruct (video_path_takes_precedence demo_world (lit "voice.mp3") (lit "clip.mp4")
              (Some (lit "photo.png")) (lit "out.mp4") eq_refl)
    as (Hsame & Himage & _ & Hvideo).
  split; [exact Hsame|]. split; [exact Himage|].
  exact (Hvideo 4%Q demo_video eq_refl eq_refl eq_refl eq_refl).
Defined.

(* ===================================================================== *)
(** * The composer: closing what was opened *)
(* ===================================================================== *)

Lemma opens_have_no_close (evs : list Event) :
  forallb is_open evs = true -> existsb is_close evs = false.
Proof.
  induction evs as [|e evs IH]; [reflexivity|].
  cbn. destruct e; cbn; try discriminate. exact IH.
Qed.

Lemma existsb_is_close_app (l1 l2 : list Event) :
  existsb is_close (l1 ++ l2) = existsb is_close l1 || existsb is_close l2.
Proof. apply existsb_app. Qed.

(** On every run that returns, what the composer did is: open files,
    call the encoder, then call [close] on the clip it encoded and
    [close] on the audio clip, in that order.  The two calls sit after
    the encoder's with nothing to protect them: on a run that raises,
    neither is made. *)
Lemma close_calls_follow_the_encoder (w : World) (audio_path : str)
    (video_path image_path : option str) (out_path : str) :
  let r := create_video_with_voiceover audio_path video_path image_path out_path w in
  let evs := new_events w r.1 in
  match r.2 with
  | Returned _ =>
      exists opens job audio,
        evs = opens ++ [Write job; CloseClip (job_clip job); CloseAudio audio]
        /\ forallb is_open opens = true
        /\ a_path audio = audio_path
  | Raised _ => existsb is_close evs = false
  end.
Proof.
  cbn zeta.
  destruct (compose_run w audio_path video_path image_path out_path)
    as [w' e opens Hlog Hopen Himg
       | d x f c fps w0 opens Ha Hread Hlog Hopen Himg Hcov Henc Hkept Hdur Hx Hfps].
  - cbn. rewrite (new_events_app w w' opens Hlog). apply opens_have_no_close. exact Hopen.
  - erewrite (encode_and_close_events w w0 opens) by eassumption.
    erewrite encode_and_close_run by eassumption. cbn zeta.
    destruct (encoder w0 (job_of c out_path fps)); cbn [snd].
    + exists opens, (job_of c out_path fps), {| a_path := audio_path; a_duration := d |}.
      split; [reflexivity|]. split; [exact Hopen|]. reflexivity.
    + rewrite existsb_is_close_app, (opens_have_no_close opens Hopen). reflexivity.
Qed.

(** C9.  The composer does not release what it opened when it fails:
    with the four-second audio, the ten-second video and an encoder that
    fails, the run raises the encoder's error after opening the audio and
    the video, and it ends without a single [close] call, so that neither
    handle is released. *)
Theorem handles_stay_open_when_encoding_fails :
  let r := create_video_with_voiceover (lit "voice.mp3") (Some (lit "clip.mp4")) None
             (lit "out.mp4") broken_encoder_world in
  r.2 = Raised EncoderError
  /\ opened (new_events broken_encoder_world r.1)
     = [AudioHandle (lit "voice.mp3"); VideoHandle (lit "clip.mp4")]
  /\ existsb is_close (new_events broken_encoder_world r.1) = false
  /\ all_released (new_events broken_encoder_world r.1) = false.
Proof.
  cbn zeta.
  rewrite (compose_long_video broken_encoder_world (lit "voice.mp3") (lit "out.mp4") 4 eq_refl
             (lit "clip.mp4") None demo_video eq_refl eq_refl ltac:(discriminate)).
  erewrite (encode_and_close_events broken_encoder_world _
              [Open (AudioHandle (lit "voice.mp3")); Open (VideoHandle (lit "clip.mp4"))]);
    [| reflexivity | reflexivity | reflexivity ].
  erewrite encode_and_close_run by reflexivity.
  repeat split.
Qed.

(* ===================================================================== *)
(** * The trace only grows *)
(* ===================================================================== *)

Create HintDb extending.

Lemma extending_ret {A : Type} (a : A) : Extending (mret a : M A).
Proof. intros w. exists []. cbn. symmetry. apply app_nil_r. Qed.

Lemma extending_raise {A : Type} (e : Exn) : Extending (raise e : M A).
Proof. intros w. exists []. cbn. symmetry. apply app_nil_r. Qed.

Lemma extending_bind {A B : Type} (m : M A) (f : A -> M B) :
  Extending m -> (forall a, Extending (f a)) -> Extending (m ≫= f).
Proof.
  intros Hm Hf w. rewrite bind_run. destruct (Hm w) as [evs Hevs].
  destruct (m w) as [w' [a|e]]; cbn in Hevs.
  - destruct (Hf a w') as [evs' Hevs']. exists (evs ++ evs').
    rewrite Hevs', Hevs, app_assoc. reflexivity.
  - exists evs. exact Hevs.
Qed.

Lemma extending_emit (e : Event) : Extending (emit e).
Proof. intros w. exists [e]. reflexivity. Qed.

Lemma extending_save (c : Communicate) (outfile : str) : Extending (save c outfile).
Proof. intros w. exists [Synthesize c outfile]. apply save_log. Qed.

Lemma extending_AudioFileClip (path : str) : Extending (AudioFileClip path).
Proof.
  intros w. unfold AudioFileClip.
  destruct (files w !! path) as [[| | |]|];
    first [ exists []; cbn; symmetry; apply app_nil_r | eexists; reflexivity ].
Qed.

Lemma extending_VideoFileClip (path : str) : Extending (VideoFileClip path).
Proof.
  intros w. unfold VideoFileClip.
  destruct (files w !! path) as [[| | |]|];
    first [ exists []; cbn; symmetry; apply app_nil_r | eexists; reflexivity ].
Qed.

Lemma extending_ImageClip (path : str) : Extending (ImageClip path).
Proof.
  intros w. unfold ImageClip.
  destruct (files w !! path) as [[| | |]|];
    first [ exists []; cbn; symmetry; apply app_nil_r | eexists; reflexivity ].
Qed.

Lemma extending_write_videofile (c : Clip) (out : str) (fps : option Q) (codec acodec : str) :
  Extending (write_videofile c out fps codec acodec).
Proof.
  intros w. unfold write_videofile.
  destruct (clip_duration c); [|exists []; cbn; symmetry; apply app_nil_r].
  destruct (match fps with Some f => Some f | None => clip_fps c end);
    [|exists []; cbn; symmetry; apply app_nil_r].
  cbn. destruct (encoder w _); eexists; reflexivity.
Qed.

Lemma extending_silent {A : Type} (m : M A) :
  (forall w, log (m w).1 = log w) -> Extending m.
Proof. intros H w. exists []. rewrite H. symmetry. apply app_nil_r. Qed.

Lemma extending_mkdtemp : Extending mkdtemp.
Proof. apply extending_silent. reflexivity. Qed.

Lemma extending_NamedTemporaryFile (sfx : str) : Extending (NamedTemporaryFile sfx).
Proof. apply extending_silent. reflexivity. Qed.

Lemma extending_image_save (img : Image) (path : str) : Extending (image_save img path).
Proof. apply extending_silent. reflexivity. Qed.

Lemma extending_write_bytes (path : str) (data : FileContent) : Extending (write_bytes path data).
Proof. apply extending_silent. reflexivity. Qed.

Lemma extending_open_rb (path : str) : Extending (open_rb path).
Proof.
  apply extending_silent. intros w. unfold open_rb. destruct (files w !! path); reflexivity.
Qed.

Lemma extending_floordiv (a b : Q) : Extending (floordiv a b).
Proof.
  unfold floordiv. destruct (Qeq_bool b 0); [apply extending_raise | apply extending_ret].
Qed.

Lemma extending_concatenate (clips : list Clip) : Extending (concatenate_videoclips clips).
Proof. destruct clips; [apply extending_raise | apply extending_ret]. Qed.

Lemma extending_resize (c : Clip) (height : Z) : Extending (resize c height).
Proof.
  unfold resize. destruct (_ =? 0); [apply extending_raise | apply extending_ret].
Qed.

#[local] Hint Resolve extending_ret extending_raise extending_emit extending_save
  extending_AudioFileClip extending_VideoFileClip extending_ImageClip
  extending_write_videofile extending_mkdtemp extending_NamedTemporaryFile
  extending_image_save extending_write_bytes extending_open_rb extending_floordiv
  extending_concatenate extending_resize : extending.

Ltac extending :=
  repeat first
    [ apply extending_bind; [|intro]
    | progress (unfold close, close_audio)
    | solve [auto with extending]
    | match goal with
      | |- Extending (if ?b then _ else _) => destruct b
      | |- Extending (match ?x with _ => _ end) => destruct x
      end ].

Lemma extending_create (audio_path : str) (video_path image_path : option str) (out_path : str) :
  Extending (create_video_with_voiceover audio_path video_path image_path out_path).
Proof. unfold create_video_with_voiceover. extending. Qed.

#[local] Hint Resolve extending_create : extending.

(* ===================================================================== *)
(** * The button handler *)
(* ===================================================================== *)

(** C7.  When the narration text is empty or made of white space only,
    the handler does one thing: it reports "Please enter some text." to the
    user; no request reaches the speech service.  For every other text the
    first thing the handler does to the outside is to send the synthesis
    request for that text, voice, rate and pitch. *)
Theorem blank_text_is_rejected_before_synthesis (fm : Form) (w : World) :
  let r := generate_video fm w in
  if forallb isspace (text_input fm) then
    r.2 = Returned tt
    /\ new_events w r.1 = [St_error (lit "Please enter some text.")]
    /\ existsb is_synthesize (new_events w r.1) = false
  else
    exists rest,
      new_events w r.1
      = Synthesize (expected_request (text_input fm) (voice fm) (rate fm) (pitch fm))
          (path_join (tmp_names w (tmp_next w)) (lit "voice.mp3"))
        :: rest.
Proof.
  cbn zeta. unfold generate_video.
  destruct (forallb isspace (text_input fm)) eqn:Hblank.
  - apply strip_falsy_iff in Hblank. rewrite Hblank. cbn [negb].
    unfold emit. cbn [fst snd]. rewrite (new_events_app w _ [St_error
        (lit "Please enter some text.")]) by reflexivity.
    repeat split.
  - destruct (truthy_str (strip (text_input fm))) eqn:Hstrip.
    2: { apply strip_falsy_iff in Hstrip. congruence. }
    cbn [negb]. rewrite bind_run. unfold mkdtemp at 1.
    set (audio_file := path_join (tmp_names w (tmp_next w)) (lit "voice.mp3")).
    match goal with
    | |- context [(synthesize_tts ?t ?v ?o ?r ?p ≫= ?k) ?w1] =>
        assert (Hk : forall a, Extending (k a)) by (intro; extending);
        pose proof (synthesize_tts_log t v o r p w1) as Hsyn;
        rewrite bind_run;
        destruct (synthesize_tts t v o r p w1) as [w2 [[]|e]]
    end.
    + destruct (Hk tt w2) as [evs Hevs]. exists evs.
      apply new_events_app. rewrite Hevs. cbn in Hsyn. rewrite Hsyn.
      rewrite <- app_assoc. reflexivity.
    + exists []. apply new_events_app. exact Hsyn.
Qed.

(* ===================================================================== *)
(** * Failures *)
(* ===================================================================== *)

Lemma opens_offer_nothing (evs : list Event) :
  forallb is_open evs = true -> existsb offers_output evs = false.
Proof.
  induction evs as [|e evs IH]; [reflexivity|].
  cbn. destruct e; cbn; try discriminate. exact IH.
Qed.

(** From the call of the composer on, the handler raises only if the
    composer does, and then nothing has been shown or offered. *)
Lemma compose_then_publish_quiet (w w3 : World) (pre : list Event)
    (audio_file out_video : str) (p1 p2 : option str) :
  log w3 = log w ++ pre ->
  existsb offers_output pre = false ->
  let r :=
    (res ← create_video_with_voiceover audio_file p1 p2 out_video;
     let final_video := res.1 in
     emit (St_success done_msg);;
     emit (St_video final_video);;
     _ ← open_rb final_video;
     emit (St_download_button (lit "Download MP4") final_video
             (lit "voiceover_video.mp4") (lit "video/mp4"));;
     _ ← open_rb audio_file;
     emit (St_download_button (lit "Download MP3") audio_file
             (lit "voiceover_audio.mp3") (lit "audio/mpeg"))) w3 in
  is_raised r -> existsb offers_output (new_events w r.1) = false.
Proof.
  intros Hpre Hquiet. cbn zeta. rewrite bind_run.
  destruct (compose_run w3 audio_file p1 p2 out_video)
    as [w' e opens Hlog Hopen Himg
       | d x f c fps w0 opens Ha Hread Hlog Hopen Himg Hcov Henc Hkept Hdur Hx Hfps].
  - intros _. cbn [fst]. rewrite (new_events_app w w' (pre ++ opens)).
    + rewrite existsb_app, Hquiet, (opens_offer_nothing opens Hopen). reflexivity.
    + rewrite Hlog, Hpre, app_assoc. reflexivity.
  - erewrite encode_and_close_run by eassumption. cbn zeta.
    destruct (encoder w0 (job_of c out_video fps)).
    + intros Hraised. exfalso. revert Hraised.
      unfold mbind, M_bind, emit, open_rb. cbn.
      rewrite lookup_insert_eq. cbn.
      assert (Hsome : forall v, is_Some (<[out_video := v]> (files w0) !! audio_file)).
      { intros v. rewrite lookup_insert_is_Some.
        destruct (decide (out_video = audio_file)) as [Heq|Hne]; [left; auto | right].
        split; [exact Hne|]. apply Hkept. rewrite Ha. eauto. }
      match goal with
      | |- context [<[out_video := ?v]> (files w0) !! audio_file] =>
          destruct (Hsome v) as [content Hcontent]
      end.
      rewrite Hcontent. cbn. tauto.
    + intros _. cbn [fst].
      rewrite (new_events_app w _ (pre ++ opens ++ [Write (job_of c out_video fps)])).
      * rewrite !existsb_app, Hquiet, (opens_offer_nothing opens Hopen). reflexivity.
      * cbn. rewrite Hlog, Hpre, <- !app_assoc. reflexivity.
Qed.

(** Whenever the handler raises, it has shown no video and offered no
    download. *)
Lemma generate_video_raises_quietly (fm : Form) (w : World) :
  is_raised (generate_video fm w) ->
  existsb offers_output (new_events w (generate_video fm w).1) = false.
Proof.
  unfold generate_video.
  destruct (negb (truthy_str (strip (text_input fm)))).
  { intros []. }
  rewrite bind_run. unfold mkdtemp. rewrite bind_run.
  rewrite synthesize_tts_is_save. unfold save. cbn [speech_service bump_tmp log_event].
  destruct (speech_service w _) as [dur|].
  2: { intros _. cbn [fst]. erewrite new_events_app by reflexivity. reflexivity. }
  rewrite bind_run.
  destruct (upload fm) as [up|].
  - rewrite bind_run. unfold write_bytes.
    destruct (str_in _ _); unfold mret, M_ret;
      eapply compose_then_publish_quiet; first [reflexivity | eassumption].
  - unfold mret, M_ret.
    eapply compose_then_publish_quiet; first [reflexivity | eassumption].
Qed.



(* ===================================================================== *)
(** * Printed integers *)
(* ===================================================================== *)

Lemma lit_inj (s1 s2 : string) : lit s1 = lit s2 -> s1 = s2.
Proof.
  unfold lit. intros H.
  rewrite <- (string_of_list_ascii_of_string s1), <- (string_of_list_ascii_of_string s2).
  f_equal. revert H. generalize (list_ascii_of_string s1) (list_ascii_of_string s2).
  induction l as [|a l IH]; intros [|b l'] H; simpl in H; try discriminate; [reflexivity|].
  injection H as Hab Hl. f_equal; [|apply IH; exact Hl].
  rewrite <- (ascii_N_embedding a), <- (ascii_N_embedding b), Hab. reflexivity.
Qed.

Lemma to_int_not_nil (z : Z) :
  Z.to_int z <> Decimal.Pos Decimal.Nil /\ Z.to_int z <> Decimal.Neg Decimal.Nil.
Proof.
  pose proof (DecimalZ.to_of (Z.to_int z)) as H. rewrite DecimalZ.of_to in H.
  split; intros E; rewrite E in H; discriminate H.
Qed.

(** [str] of an [int] can be read back: different integers print
    differently. *)
Lemma str_of_int_inj (a b : Z) : str_of_int a = str_of_int b -> a = b.
Proof.
  unfold str_of_int. intros H. apply lit_inj in H.
  apply DecimalZ.to_int_inj.
  destruct (to_int_not_nil a) as [Ha1 Ha2]. destruct (to_int_not_nil b) as [Hb1 Hb2].
  pose proof (NilZero.isi _ Ha1 Ha2) as Ia. pose proof (NilZero.isi _ Hb1 Hb2) as Ib.
  rewrite H in Ia. congruence.
Qed.

Lemma string_of_uint_digits (d : Decimal.uint) :
  forallb is_sign_or_digit (lit (NilEmpty.string_of_uint d)) = true.
Proof.
  unfold lit. induction d; simpl; try reflexivity; exact IHd.
Qed.

(** A printed integer is made of digits, after a minus sign at most. *)
Lemma str_of_int_digits (z : Z) : forallb is_sign_or_digit (str_of_int z) = true.
Proof.
  unfold str_of_int.
  destruct (Z.to_int z) as [d|d]; simpl.
  - destruct d; try reflexivity; apply (string_of_uint_digits (_ d)).
  - unfold lit. simpl.
    destruct d; try reflexivity; apply (string_of_uint_digits (_ d)).
Qed.

(* ===================================================================== *)
(** * [safe_filename] *)
(* ===================================================================== *)

Section SafeFilename.

Variable wide : N -> bool.

Let sanitise (c : N) : N := if isalnum wide c then c else underscore.

Lemma sanitise_char (c : N) : isalnum wide (sanitise c) = true \/ sanitise c = underscore.
Proof. unfold sanitise. destruct (isalnum wide c) eqn:E; [left; exact E | right; reflexivity]. Qed.

Lemma sanitised_chars (base : str) (n : nat) :
  Forall (fun c => isalnum wide c = true \/ c = underscore) (take n (map sanitise base)).
Proof.
  apply Forall_take. induction base as [|b base IH]; simpl; constructor;
    [apply sanitise_char | exact IH].
Qed.

Lemma sanitised_lookup (base : str) (n i : nat) (c : N) :
  take n (map sanitise base) !! i = Some c ->
  exists b, base !! i = Some b /\ c = sanitise b.
Proof.
  intros H. apply lookup_take_Some in H as [H _]. revert i H.
  induction base as [|b base IH]; intros [|i] H; simpl in H; try discriminate H.
  - injection H as <-. exists b. split; reflexivity.
  - apply IH in H. exact H.
Qed.

(** X1.  The name built by [safe_filename] is the sanitised base, an
    underscore, the time in whole seconds, a dot and the extension.  The
    sanitised base has the first 40 characters of the base at most, each
    kept if it is alphanumeric and replaced by an underscore otherwise, so
    it is made of alphanumeric characters and underscores only. *)
Theorem safe_filename_sanitised (now : Q) (base ext : str) :
  exists safe,
    safe_filename wide now base ext
    = safe ++ lit "_" ++ str_of_int (int_of_float now) ++ lit "." ++ ext
    /\ length safe = Nat.min 40 (length base)
    /\ (forall i c, safe !! i = Some c ->
          exists b, base !! i = Some b /\ c = if isalnum wide b then b else underscore)
    /\ Forall (fun c => isalnum wide c = true \/ c = underscore) safe.
Proof.
  exists (take 40 (map sanitise base)). split; [reflexivity|]. split; [|split].
  - rewrite length_take, length_map. lia.
  - intros i c H. apply sanitised_lookup in H. exact H.
  - apply sanitised_chars.
Qed.

(** X2.  When the extension holds no slash, the name holds none: it is a
    single path component, whatever the base. *)
Theorem safe_filename_is_one_component (now : Q) (base ext : str) :
  slash ∉ ext -> slash ∉ safe_filename wide now base ext.
Proof.
  intros Hext. unfold safe_filename. cbn zeta.
  rewrite !elem_of_app. intros [H | [H | [H | [H | H]]]].
  - pose proof (sanitised_chars base 40) as HF. rewrite Forall_forall in HF.
    destruct (HF _ H) as [Halnum | Hund]; [|vm_compute in Hund; discriminate Hund].
    revert Halnum. vm_compute. discriminate.
  - revert H. unfold lit. simpl. rewrite list_elem_of_singleton. discriminate.
  - pose proof (str_of_int_digits (int_of_float now)) as HD.
    rewrite forallb_forall in HD. apply list_elem_of_In in H.
    specialize (HD _ H). revert HD. vm_compute. discriminate.
  - revert H. unfold lit. simpl. rewrite list_elem_of_singleton. discriminate.
  - exact (Hext H).
Qed.

(** X3.  A base of at most 40 characters, all alphanumeric, is kept as it
    is. *)
Theorem safe_filename_keeps_clean_base (now : Q) (base ext : str) :
  forallb (isalnum wide) base = true ->
  (length base <= 40)%nat ->
  safe_filename wide now base ext
  = base ++ lit "_" ++ str_of_int (int_of_float now) ++ lit "." ++ ext.
Proof.
  intros Hclean Hlen. unfold safe_filename. cbn zeta. f_equal.
  assert (Hmap : map (fun c => if isalnum wide c then c else underscore) base = base).
  { clear Hlen. induction base as [|b l IH]; [reflexivity|].
    simpl in Hclean. apply andb_prop in Hclean as [Hb Hl].
    simpl. rewrite Hb, (IH Hl). reflexivity. }
  rewrite Hmap. apply take_ge. exact Hlen.
Qed.

(** X4.  Two calls made in different seconds give different names for
    the same base and extension. *)
Theorem safe_filename_differs_by_second (now1 now2 : Q) (base ext : str) :
  int_of_float now1 <> int_of_float now2 ->
  safe_filename wide now1 base ext <> safe_filename wide now2 base ext.
Proof.
  intros Hts H. apply Hts. unfold safe_filename in H. cbn zeta in H.
  apply app_inv_head in H. apply app_inv_head in H.
  apply app_inv_tail in H. apply str_of_int_inj. exact H.
Qed.

End SafeFilename.

Lemma safe_filename_is_one_component_witness :
  slash ∉ safe_filename ascii_only (3400000001 # 2) (lit "../my clip (final)") (lit "mp4").
Proof.
  apply safe_filename_is_one_component. vm_compute.
  intros H. repeat (apply elem_of_cons in H as [H|H]; [discriminate H|]).
  apply elem_of_nil in H. exact H.
Defined.

Lemma safe_filename_keeps_clean_base_witness :
  safe_filename ascii_only (3400000001 # 2) (lit "Holiday2024") (lit "mp4")
  = lit "Holiday2024_1700000000.mp4".
Proof.
  rewrite (safe_filename_keeps_clean_base ascii_only (3400000001 # 2)
             (lit "Holiday2024") (lit "mp4"));
    reflexivity || (vm_compute; lia).
Defined.

Lemma safe_filename_differs_by_second_witness :
  safe_filename ascii_only (3400000001 # 2) (lit "clip") (lit "mp4")
  <> safe_filename ascii_only (3400000003 # 2) (lit "clip") (lit "mp4").
Proof.
  apply safe_filename_differs_by_second. vm_compute. discriminate.
Defined.

(* ===================================================================== *)
(** * The composer: what it leaves behind when it stops *)
(* ===================================================================== *)

(** X6.  When the audio file cannot be read as audio, the composer raises
    [IOError] for the audio path and does nothing else: the visual source
    is not opened, no file is written, no temporary name is taken. *)
Theorem composer_stops_at_unreadable_audio (w : World) (audio_path : str)
    (video_path image_path : option str) (out_path : str) :
  (forall d, files w !! audio_path <> Some (AudioData d)) ->
  create_video_with_voiceover audio_path video_path image_path out_path w
  = (w, Raised (IOError audio_path)).
Proof. apply compose_audio_unreadable. Qed.

(** The photograph passed as the narration. *)
Lemma composer_stops_at_unreadable_audio_witness :
  create_video_with_voiceover (lit "photo.png") (Some (lit "clip.mp4")) None
    (lit "out.mp4") demo_world
  = (demo_world, Raised (IOError (lit "photo.png"))).
Proof.
  apply composer_stops_at_unreadable_audio.
  intros d H. vm_compute in H. discriminate H.
Defined.

(** X7.  A supplied video of zero duration, with an audio that lasts
    longer, makes the composer raise [ZeroDivisionError] in the loop
    count: the audio and the video have been opened and are not closed, the
    encoder is not called and no file is written. *)
Theorem zero_length_video_divides_by_zero (w : World) (audio_path video_path : str)
    (image_path : option str) (out_path : str) (d : Q) (info : VideoInfo) :
  files w !! audio_path = Some (AudioData d) ->
  truthy_str video_path = true ->
  files w !! video_path = Some (VideoData info) ->
  (v_duration info == 0)%Q ->
  (0 < d)%Q ->
  let r := create_video_with_voiceover audio_path (Some video_path) image_path out_path w in
  r.2 = Raised ZeroDivisionError
  /\ new_events w r.1 = [Open (AudioHandle audio_path); Open (VideoHandle video_path)]
  /\ files r.1 = files w.
Proof.
  intros Ha Hv Hf Hz Hd r. subst r.
  rewrite (compose_video_zero_duration w audio_path out_path d Ha video_path image_path info
             Hv Hf ltac:(lra) ltac:(apply Qeq_bool_iff; exact Hz)).
  split; [reflexivity|]. split; [|reflexivity].
  apply new_events_app. cbn. rewrite <- app_assoc. reflexivity.
Qed.

Lemma zero_length_video_divides_by_zero_witness :
  let r := create_video_with_voiceover (lit "voice.mp3") (Some (lit "still.mp4")) None
             (lit "out.mp4") still_world in
  r.2 = Raised ZeroDivisionError
  /\ new_events still_world r.1
     = [Open (AudioHandle (lit "voice.mp3")); Open (VideoHandle (lit "still.mp4"))]
  /\ files r.1 = files still_world.
Proof.
  apply (zero_length_video_divides_by_zero still_world (lit "voice.mp3") (lit "still.mp4")
           None (lit "out.mp4") 4 demo_still_video);
    reflexivity.
Defined.

(** X8.  When neither a video nor an image path is given, the generated
    black picture stays on disk under its temporary name after the run,
    whether the encoder completed or failed, and one temporary name has
    been used up. *)
Theorem placeholder_picture_is_left_behind (w : World) (audio_path : str)
    (video_path image_path : option str) (out_path : str) (d : Q) :
  files w !! audio_path = Some (AudioData d) ->
  truthy video_path = false ->
  truthy image_path = false ->
  tmp_names w (tmp_next w) ++ lit ".png" <> out_path ->
  let r := create_video_with_voiceover audio_path video_path image_path out_path w in
  files r.1 !! (tmp_names w (tmp_next w) ++ lit ".png") = Some (ImageData black_frame)
  /\ tmp_next r.1 = S (tmp_next w).
Proof.
  intros Ha Hv Hi Hne r. subst r.
  pose proof (compose_placeholder w audio_path out_path d Ha video_path image_path Hv Hi)
    as Hrun.
  cbn zeta in Hrun. rewrite Hrun.
  erewrite encode_and_close_run by reflexivity. cbn zeta.
  destruct (encoder _ _); cbn.
  - rewrite lookup_insert_ne by congruence. rewrite lookup_insert_eq. repeat split.
  - rewrite lookup_insert_ne by congruence. rewrite lookup_insert_eq. repeat split.
Qed.

Lemma placeholder_picture_is_left_behind_witness :
  let r := create_video_with_voiceover (lit "voice.mp3") None None (lit "out.mp4") demo_world in
  files r.1 !! lit "/tmp/tmp0.png" = Some (ImageData black_frame)
  /\ tmp_next r.1 = 1%nat.
Proof.
  apply (placeholder_picture_is_left_behind demo_world (lit "voice.mp3") None None
           (lit "out.mp4") 4);
    [reflexivity | reflexivity | reflexivity | vm_compute; discriminate].
Defined.

(* ===================================================================== *)
(** * The composer: more on a supplied video *)
(* ===================================================================== *)

(** X9.  With a usable video, the clip handed to the encoder has the
    size and the frame rate of the video file, looped or not, and the
    encoder is given no frame rate of its own; the clip's audio is the
    narration: whatever sound the video had is replaced. *)
Theorem video_output_keeps_native_format (w : World) (audio_path video_path : str)
    (image_path : option str) (out_path : str) (d : Q) (info : VideoInfo) :
  files w !! audio_path = Some (AudioData d) ->
  truthy_str video_path = true ->
  files w !! video_path = Some (VideoData info) ->
  (0 < d)%Q ->
  (0 < v_duration info)%Q ->
  let r := create_video_with_voiceover audio_path (Some video_path) image_path out_path w in
  exists (c : Clip) (closes : list Event),
    new_events w r.1
    = Open (AudioHandle audio_path) :: Open (VideoHandle video_path)
        :: Write (job_of c out_path None) :: closes
    /\ clip_size c = v_size info
    /\ clip_fps c = Some (v_fps info)
    /\ clip_audio c = Some {| a_path := audio_path; a_duration := d |}.
Proof.
  intros Ha Hv Hf Hd Hvd r. subst r.
  set (audio := {| a_path := audio_path; a_duration := d |}).
  destruct (Qlt_le_dec (v_duration info) d) as [Hlt|Hle].
  - rewrite (compose_short_video w audio_path out_path d Ha video_path image_path info
               Hv Hf Hvd Hlt).
    assert (Hfps : clip_fps (set_audio (looped_track (VideoFile video_path info) d
                                          (v_duration info)) audio)
                   = Some (v_fps info)).
    { apply looped_track_fps; [lra | exact Hvd]. }
    erewrite (encode_and_close_events w _
                [Open (AudioHandle audio_path); Open (VideoHandle video_path)]);
      [| cbn; rewrite <- app_assoc; reflexivity | reflexivity | exact Hfps ].
    eexists _, _. split; [reflexivity|]. split; [|split; [exact Hfps | reflexivity]].
    pose proof (repeat_count_pos d (v_duration info) ltac:(lra) Hvd) as Hn.
    destruct (Z.to_nat (repeat_count d (v_duration info))) as [|k] eqn:Ek; [lia|].
    exact (looped_track_size (VideoFile video_path info) d (v_duration info) k audio Ek).
  - rewrite (compose_long_video w audio_path out_path d Ha video_path image_path info
               Hv Hf Hle).
    erewrite (encode_and_close_events w _
                [Open (AudioHandle audio_path); Open (VideoHandle video_path)]);
      [| cbn; rewrite <- app_assoc; reflexivity | reflexivity | reflexivity ].
    eexists _, _. split; [reflexivity|]. repeat split.
Qed.

(** The clip of a second and a half, which has a sound track of its own,
    under the four-second narration. *)
Lemma video_output_keeps_native_format_witness :
  let r := create_video_with_voiceover (lit "voice.mp3") (Some (lit "intro.mp4")) None
             (lit "out.mp4") demo_world in
  exists (c : Clip) (closes : list Event),
    new_events demo_world r.1
    = Open (AudioHandle (lit "voice.mp3")) :: Open (VideoHandle (lit "intro.mp4"))
        :: Write (job_of c (lit "out.mp4") None) :: closes
    /\ clip_size c = (640, 360)
    /\ clip_fps c = Some 25%Q
    /\ clip_audio c = Some {| a_path := lit "voice.mp3"; a_duration := 4 |}.
Proof.
  apply (video_output_keeps_native_format demo_world (lit "voice.mp3") (lit "intro.mp4") None
           (lit "out.mp4") 4 demo_short_video);
    reflexivity.
Defined.

Lemma repeat_count_of_multiple (d vd : Q) (k : Z) :
  (0 < vd)%Q -> (d == inject_Z k * vd)%Q -> repeat_count d vd = k + 1.
Proof.
  intros Hvd Hd. unfold repeat_count. f_equal.
  rewrite <- (Qfloor_Z k). apply Qfloor_comp. rewrite Hd. field. lra.
Qed.

(** X10.  When the audio lasts exactly [k] times the video ([k >= 2]),
    [k] copies would already last as long as the audio, yet the composer
    concatenates [k + 1]: the last copy is cut off whole by the trim. *)
Theorem exact_multiple_gets_a_spare_copy (w : World) (audio_path video_path : str)
    (image_path : option str) (out_path : str) (d : Q) (info : VideoInfo) (k : nat) :
  files w !! audio_path = Some (AudioData d) ->
  truthy_str video_path = true ->
  files w !! video_path = Some (VideoData info) ->
  (0 < v_duration info)%Q ->
  (2 <= k)%nat ->
  (d == inject_Z (Z.of_nat k) * v_duration info)%Q ->
  let r := create_video_with_voiceover audio_path (Some video_path) image_path out_path w in
  let audio := {| a_path := audio_path; a_duration := d |} in
  let video := VideoFile video_path info in
  written_clips (new_events w r.1)
  = [set_audio (subclip (Concatenated (replicate (S k) video)) 0 d) audio]
  /\ exists x, clip_duration (Concatenated (replicate k video)) = Some x /\ (x == d)%Q.
Proof.
  intros Ha Hv Hf Hvd Hk Hd r audio video. subst r.
  assert (Hlt : (v_duration info < d)%Q).
  { rewrite Hd. assert (H2 : (2 <= inject_Z (Z.of_nat k))%Q).
    { change 2%Q with (inject_Z 2). rewrite <- Zle_Qle. lia. }
    nra. }
  pose proof (repeat_count_of_multiple d (v_duration info) (Z.of_nat k) Hvd Hd) as Hn.
  assert (Hk' : Z.to_nat (repeat_count d (v_duration info)) = S k) by (rewrite Hn; lia).
  split.
  - rewrite (compose_short_video w audio_path out_path d Ha video_path image_path info
               Hv Hf Hvd Hlt).
    erewrite (encode_and_close_events w _
                [Open (AudioHandle audio_path); Open (VideoHandle video_path)]);
      [| cbn; rewrite <- app_assoc; reflexivity | reflexivity
       | apply (looped_track_fps_gen video_path info d _ k Hk') ].
    rewrite written_clips_app. cbn. rewrite written_clips_tail.
    unfold looped_track. rewrite Hk'. reflexivity.
  - destruct (concatenated_duration video (v_duration info) k eq_refl) as (x & Hx & Hxe).
    exists x. split; [exact Hx|]. rewrite Hxe, Hd. reflexivity.
Qed.

(** The ten-second video under a twenty-second narration: three copies. *)
Lemma exact_multiple_gets_a_spare_copy_witness :
  let w := {| files := <[lit "long.mp3" := AudioData 20]> (files demo_world);
              speech_service := speech_service demo_world;
              encoder := encoder demo_world;
              tmp_names := tmp_names demo_world;
              tmp_next := 0;
              log := [] |} in
  let r := create_video_with_voiceover (lit "long.mp3") (Some (lit "clip.mp4")) None
             (lit "out.mp4") w in
  let audio := {| a_path := lit "long.mp3"; a_duration := 20 |} in
  let video := VideoFile (lit "clip.mp4") demo_video in
  written_clips (new_events w r.1)
  = [set_audio (subclip (Concatenated (replicate 3 video)) 0 20) audio]
  /\ exists x, clip_duration (Concatenated (replicate 2 video)) = Some x /\ (x == 20)%Q.
Proof.
  intros w.
  apply (exact_multiple_gets_a_spare_copy w (lit "long.mp3") (lit "clip.mp4") None
           (lit "out.mp4") 20 demo_video 2);
    first [reflexivity | lia].
Defined.

(* ===================================================================== *)
(** * The handler, step by step *)
(* ===================================================================== *)

(** With the speech service down, the handler stops at the request. *)
Lemma generate_video_offline (fm : Form) (w : World) :
  truthy_str (strip (text_input fm)) = true ->
  speech_service w (expected_request (text_input fm) (voice fm) (rate fm) (pitch fm)) = None ->
  generate_video fm w
  = (log_event
       (Synthesize (expected_request (text_input fm) (voice fm) (rate fm) (pitch fm))
          (path_join (tmp_names w (tmp_next w)) (lit "voice.mp3")))
       (bump_tmp w),
     Raised SynthesisError).
Proof.
  intros Htext Hsvc. unfold generate_video. rewrite Htext. cbn [negb].
  rewrite bind_run. unfold mkdtemp. rewrite bind_run.
  rewrite synthesize_tts_is_save. unfold save. cbn [speech_service bump_tmp log_event].
  rewrite Hsvc. reflexivity.
Qed.

(** With an answer from the speech service, the handler reaches the
    composer in the staged world and goes on with [publish]. *)
Lemma generate_video_staged (fm : Form) (w : World) (dur : Q) :
  truthy_str (strip (text_input fm)) = true ->
  speech_service w (expected_request (text_input fm) (voice fm) (rate fm) (pitch fm))
  = Some dur ->
  let tmp_dir := tmp_names w (tmp_next w) in
  let audio_file := path_join tmp_dir (lit "voice.mp3") in
  let out_video := path_join tmp_dir (lit "output.mp4") in
  generate_video fm w
  = (create_video_with_voiceover audio_file (staged fm w dur).2.1 (staged fm w dur).2.2 out_video
     ≫= publish audio_file) (staged fm w dur).1.
Proof.
  intros Htext Hsvc. cbn zeta. unfold generate_video, staged. rewrite Htext. cbn [negb].
  rewrite bind_run. unfold mkdtemp. rewrite bind_run.
  rewrite synthesize_tts_is_save. unfold save. cbn [speech_service bump_tmp log_event].
  rewrite Hsvc. rewrite bind_run.
  destruct (upload fm) as [up|].
  - rewrite bind_run. unfold write_bytes, is_video_name, video_suffixes.
    destruct (str_in _ _); reflexivity.
  - reflexivity.
Qed.

(** Once both files exist, [publish] shows the result and offers the two
    downloads, and changes nothing else. *)
Lemma publish_run (audio_file : str) (res : str * Q) (w : World) :
  is_Some (files w !! res.1) ->
  is_Some (files w !! audio_file) ->
  let r := publish audio_file res w in
  r.2 = Returned tt
  /\ log r.1 = log w ++ published audio_file res.1
  /\ files r.1 = files w.
Proof.
  intros [c1 H1] [c2 H2]. unfold publish, mbind, M_bind, emit, open_rb. cbn.
  rewrite H1. cbn. rewrite H2. cbn. unfold published.
  rewrite <- !app_assoc. repeat split.
Qed.

(** The composer returns whenever the narration and the visual source can
    be used and the encoder completes. *)
Lemma compose_returns (w : World) (audio_path : str) (video_path image_path : option str)
    (out_path : str) (d : Q) :
  files w !! audio_path = Some (AudioData d) ->
  (0 < d)%Q ->
  usable_visual w video_path image_path ->
  (forall job, job_out job = out_path -> encoder w job = true) ->
  (create_video_with_voiceover audio_path video_path image_path out_path w).2
  = Returned (out_path, d).
Proof.
  intros Ha Hd Hvis Henc. unfold usable_visual in Hvis.
  set (audio := {| a_path := audio_path; a_duration := d |}).
  destruct (truthy video_path) eqn:Hv.
  - destruct video_path as [v|]; [|discriminate Hv].
    destruct Hvis as (info & Hf & Hvd). cbn in Hf, Hv.
    destruct (Qlt_le_dec (v_duration info) d) as [Hlt|Hle].
    + rewrite (compose_short_video w audio_path out_path d Ha v image_path info Hv Hf Hvd Hlt).
      erewrite encode_and_close_run;
        [| reflexivity | apply looped_track_fps; [lra | exact Hvd] ].
      cbn zeta. cbn [encoder log_event]. rewrite Henc by reflexivity. reflexivity.
    + rewrite (compose_long_video w audio_path out_path d Ha v image_path info Hv Hf Hle).
      erewrite encode_and_close_run by reflexivity.
      cbn zeta. cbn [encoder log_event]. rewrite Henc by reflexivity. reflexivity.
  - destruct (truthy image_path) eqn:Hi.
    + destruct image_path as [i|]; [|discriminate Hi].
      destruct Hvis as (img & Hf & Hh). cbn in Hf, Hi.
      rewrite (compose_image w audio_path out_path d Ha video_path i img Hv Hi Hf Hh).
      erewrite encode_and_close_run by reflexivity.
      cbn zeta. cbn [encoder log_event]. rewrite Henc by reflexivity. reflexivity.
    + pose proof (compose_placeholder w audio_path out_path d Ha video_path image_path Hv Hi)
        as Hrun.
      cbn zeta in Hrun. rewrite Hrun.
      erewrite encode_and_close_run by reflexivity.
      cbn zeta. cbn [encoder log_event write_file set_files bump_tmp].
      rewrite Henc by reflexivity. reflexivity.
Qed.

(** The world in which the composer is called. *)
Lemma staged_world (fm : Form) (w : World) (dur : Q) :
  let tmp_dir := tmp_names w (tmp_next w) in
  let audio_file := path_join tmp_dir (lit "voice.mp3") in
  let req := expected_request (text_input fm) (voice fm) (rate fm) (pitch fm) in
  let w3 := (staged fm w dur).1 in
  log w3 = log w ++ [Synthesize req audio_file]
  /\ encoder w3 = encoder w
  /\ tmp_next w3 = S (tmp_next w)
  /\ (match upload fm with
      | Some up => path_join tmp_dir (up_name up) <> audio_file
      | None => True
      end -> files w3 !! audio_file = Some (AudioData dur)).
Proof.
  cbn zeta. unfold staged. destruct (upload fm) as [up|]; cbn.
  - repeat split. intros Hne. rewrite lookup_insert_ne by exact Hne. apply lookup_insert_eq.
  - repeat split. intros _. apply lookup_insert_eq.
Qed.

Lemma is_video_name_nonempty (p : str) : is_video_name p = true -> truthy_str p = true.
Proof. destruct p; [discriminate | reflexivity]. Qed.

(** An upload that fits its name makes a usable visual source. *)
Lemma staged_usable (fm : Form) (w : World) (dur : Q) :
  upload_fits fm (tmp_names w (tmp_next w)) ->
  usable_visual (staged fm w dur).1 (staged fm w dur).2.1 (staged fm w dur).2.2.
Proof.
  unfold upload_fits, staged. destruct (upload fm) as [up|]; [|intros _; exact I].
  cbn zeta. intros [Hne Hkind].
  destruct (is_video_name _) eqn:Hname.
  - destruct Hkind as (info & Hdata & Hvd). unfold usable_visual.
    cbn [fst snd truthy]. rewrite (is_video_name_nonempty _ Hname).
    exists info. split; [|exact Hvd]. cbn. rewrite Hdata. apply lookup_insert_eq.
  - destruct Hkind as (img & Hdata & Hh). unfold usable_visual.
    cbn [fst snd truthy].
    destruct (truthy_str (path_join _ (up_name up))); [|exact I].
    exists img. split; [|exact Hh]. cbn. rewrite Hdata. apply lookup_insert_eq.
Qed.

(* ===================================================================== *)
(** * The handler, end to end *)
(* ===================================================================== *)

(** X11.  When the speech service fails on a non-blank text, the handler
    raises the synthesis failure right after sending the request: the
    composer is not called, nothing is shown, and no file is written; only
    a temporary directory name has been taken. *)
Theorem synthesis_failure_stops_the_request (fm : Form) (w : World) :
  truthy_str (strip (text_input fm)) = true ->
  speech_service w (expected_request (text_input fm) (voice fm) (rate fm) (pitch fm)) = None ->
  let r := generate_video fm w in
  r.2 = Raised SynthesisError
  /\ new_events w r.1
     = [Synthesize (expected_request (text_input fm) (voice fm) (rate fm) (pitch fm))
          (path_join (tmp_names w (tmp_next w)) (lit "voice.mp3"))]
  /\ files r.1 = files w
  /\ tmp_next r.1 = S (tmp_next w).
Proof.
  intros Htext Hsvc r. subst r. rewrite (generate_video_offline fm w Htext Hsvc).
  split; [reflexivity|]. split; [|split; reflexivity].
  apply new_events_app. reflexivity.
Qed.

Lemma synthesis_failure_stops_the_request_witness :
  let r := generate_video hello_form offline_world in
  r.2 = Raised SynthesisError
  /\ new_events offline_world r.1
     = [Synthesize (expected_request (lit "Hello there") (lit "en-GB-RyanNeural") 10 0)
          (lit "/tmp/tmp0/voice.mp3")]
  /\ files r.1 = files offline_world
  /\ tmp_next r.1 = 1%nat.
Proof.
  apply (synthesis_failure_stops_the_request hello_form offline_world); reflexivity.
Defined.



(** X13.  The handler goes by the extension alone.  When the uploaded
    file is not what its name says (not a video under a video extension,
    not a picture under any other name), the handler raises [IOError] for
    the uploaded file: the narration has been synthesised and opened, the
    encoder is not called and nothing is shown. *)
Theorem misnamed_upload_is_an_error (fm : Form) (w : World) (dur : Q) (up : Upload) :
  let tmp_dir := tmp_names w (tmp_next w) in
  let audio_file := path_join tmp_dir (lit "voice.mp3") in
  let file_path := path_join tmp_dir (up_name up) in
  let req := expected_request (text_input fm) (voice fm) (rate fm) (pitch fm) in
  truthy_str (strip (text_input fm)) = true ->
  speech_service w req = Some dur ->
  upload fm = Some up ->
  truthy_str file_path = true ->
  file_path <> audio_file ->
  upload_misnamed up file_path ->
  let r := generate_video fm w in
  r.2 = Raised (IOError file_path)
  /\ new_events w r.1 = [Synthesize req audio_file; Open (AudioHandle audio_file)].
Proof.
  intros tmp_dir audio_file file_path req Htext Hsvc Hup Hpath Hne Hmis r. subst r.
  rewrite (generate_video_staged fm w dur Htext Hsvc). cbn zeta.
  unfold staged. rewrite Hup. cbn zeta.
  fold tmp_dir. fold audio_file. fold file_path. fold req.
  set (w2 := write_file audio_file (AudioData dur)
               (log_event (Synthesize req audio_file) (bump_tmp w))).
  set (w3 := write_file file_path (up_data up) w2).
  assert (Ha3 : files w3 !! audio_file = Some (AudioData dur)).
  { subst w3 w2. cbn. rewrite lookup_insert_ne by exact Hne. apply lookup_insert_eq. }
  assert (Hf3 : files w3 !! file_path = Some (up_data up)).
  { subst w3. cbn. apply lookup_insert_eq. }
  unfold upload_misnamed in Hmis. rewrite bind_run.
  destruct (is_video_name file_path); cbn [fst snd].
  - rewrite (compose_video_unreadable w3 audio_file _ dur Ha3 file_path None Hpath).
    + split; [reflexivity|]. apply new_events_app. subst w3 w2. cbn.
      rewrite <- app_assoc. reflexivity.
    + intros info. rewrite Hf3. intros [= H]. exact (Hmis info H).
  - rewrite (compose_image_unreadable w3 audio_file _ dur Ha3 None file_path eq_refl Hpath).
    + split; [reflexivity|]. apply new_events_app. subst w3 w2. cbn.
      rewrite <- app_assoc. reflexivity.
    + intros img. rewrite Hf3. intros [= H]. exact (Hmis img H).
Qed.

(** The photograph uploaded as "photo.mp4". *)
Lemma misnamed_upload_is_an_error_witness :
  let r := generate_video misnamed_form demo_world in
  r.2 = Raised (IOError (lit "/tmp/tmp0/photo.mp4"))
  /\ new_events demo_world r.1
     = [Synthesize (expected_request (lit "Hello there") (lit "en-GB-RyanNeural") 10 0)
          (lit "/tmp/tmp0/voice.mp3");
        Open (AudioHandle (lit "/tmp/tmp0/voice.mp3"))].
Proof.
  apply (misnamed_upload_is_an_error misnamed_form demo_world 4
           {| up_name := lit "photo.mp4"; up_data := ImageData demo_photo |}).
  - reflexivity.
  - reflexivity.
  - reflexivity.
  - reflexivity.
  - vm_compute. discriminate.
  - intros info. discriminate.
Defined.

(* ===================================================================== *)
(** * The extension test *)
(* ===================================================================== *)

Lemma lower_char_slash (c : N) : (lower_char c =? slash)%N = (c =? slash)%N.
Proof.
  unfold lower_char, slash.
  destruct ((65 <=? c) && (c <=? 90))%N eqn:E; [|reflexivity].
  apply andb_prop in E as [E1 E2]. apply N.leb_le in E1, E2.
  destruct (N.eqb_spec (c + 32) 47), (N.eqb_spec c 47); try reflexivity; lia.
Qed.

Lemma lower_char_dot (c : N) : (lower_char c =? dot)%N = (c =? dot)%N.
Proof.
  unfold lower_char, dot.
  destruct ((65 <=? c) && (c <=? 90))%N eqn:E; [|reflexivity].
  apply andb_prop in E as [E1 E2]. apply N.leb_le in E1, E2.
  destruct (N.eqb_spec (c + 32) 46), (N.eqb_spec c 46); try reflexivity; lia.
Qed.

Lemma lower_char_idem (c : N) : lower_char (lower_char c) = lower_char c.
Proof.
  unfold lower_char.
  destruct ((65 <=? c) && (c <=? 90))%N eqn:E; [|rewrite E; reflexivity].
  apply andb_prop in E as [E1 E2]. apply N.leb_le in E1, E2.
  destruct ((65 <=? c + 32) && (c + 32 <=? 90))%N eqn:E'; [|reflexivity].
  apply andb_prop in E' as [E3 E4]. apply N.leb_le in E3, E4. lia.
Qed.

Lemma lower_idem (s : str) : lower (lower s) = lower s.
Proof.
  unfold lower. rewrite map_map. apply map_ext. intros c. apply lower_char_idem.
Qed.

Lemma basename_aux_lower (acc s : str) :
  basename_aux (lower acc) (lower s) = lower (basename_aux acc s).
Proof.
  revert acc. induction s as [|c s IH]; intros acc; [reflexivity|].
  cbn [lower map basename_aux]. rewrite lower_char_slash.
  destruct (c =? slash)%N.
  - apply (IH []).
  - rewrite <- IH. unfold lower. rewrite map_app. reflexivity.
Qed.

Lemma rfind_dot_lower (i : nat) (s : str) : rfind_dot i (lower s) = rfind_dot i s.
Proof.
  revert i. induction s as [|c s IH]; intros i; [reflexivity|].
  cbn [lower map rfind_dot]. fold (lower s). rewrite IH, lower_char_dot. reflexivity.
Qed.

Lemma length_lower (s : str) : length (lower s) = length s.
Proof. apply length_map. Qed.

Lemma drop_lower (i : nat) (s : str) : drop i (lower s) = lower (drop i s).
Proof.
  revert i. induction s as [|c s IH]; intros [|i]; try reflexivity. apply (IH i).
Qed.

(** Lower-casing a path lower-cases its suffix. *)
Lemma suffix_lower (p : str) : suffix (lower p) = lower (suffix p).
Proof.
  assert (Hb : basename_aux [] (lower p) = lower (basename_aux [] p))
    by exact (basename_aux_lower [] p).
  unfold suffix, basename. cbn zeta. rewrite Hb, rfind_dot_lower.
  destruct (rfind_dot 0 (basename_aux [] p)) as [i|]; [|reflexivity].
  rewrite length_lower.
  destruct ((0 <? i)%nat && (i <? length (basename_aux [] p) - 1)%nat); [|reflexivity].
  apply drop_lower.
Qed.

Example upper_case_extension_is_video : is_video_name (lit "/tmp/tmp0/Holiday.MP4") = true.
Proof. reflexivity. Qed.

Example last_extension_decides : is_video_name (lit "/tmp/tmp0/clip.mp4.png") = false.
Proof. reflexivity. Qed.

(** X15.  The handler's test for a video name does not depend on the case
    of the ASCII letters of the name: a path and its lower-cased form are
    dispatched the same way. *)
Theorem video_name_ignores_case (p : str) : is_video_name (lower p) = is_video_name p.
Proof.
  unfold is_video_name. rewrite suffix_lower, lower_idem. reflexivity.
Qed.
